(** * Verdict dashboard: the value normalizer and the aggregation effect

    A shallow embedding of [src/components/CountDown/index.tsx]:
    [normalizeText] (lines 354-369) and the fourth effect of the [CountDown]
    component (lines 98-190), which walks the records of the active table and
    tallies the two verdict columns per behaviour type.

    Conventions of the embedding.
    - A cell value is a JSON-like JavaScript value ([JsValue]): what the host
      hands to the widget.  Strings are kept as their UTF-8 bytes; the code
      only compares them, tests them for emptiness and uses them as keys.
    - A Number is kept as the text [Number::toString] renders it to
      (ECMA-262, 6.1.6.1.20).  The program observes a number only through
      [String(v)], a property key and its truthiness, all of which are
      functions of that text ("0" for both zeros, "NaN").
    - Code that can throw returns an [Outcome]; code that awaits the host
      threads the list of [getValue] calls it has made ([Async]).
    - [String.prototype.localeCompare] is the engine's, not the widget's: it
      is the field of a [Collator]; [consistent] states what ECMA-262 asks
      of it. *)

From Stdlib Require Import List String Ascii ZArith Lia Bool.
From Stdlib Require Import Permutation Sorted OrderedTypeEx.
Import ListNotations.
Open Scope string_scope.

Set Warnings "-register-all".

(** ** Outcomes of code that may throw *)

Inductive JsError : Type :=
| TypeError
| HostError (reason : string).

Inductive Outcome (A : Type) : Type :=
| Ok (a : A)
| Throw (e : JsError).

Arguments Ok {A} a.
Arguments Throw {A} e.

Definition bindO {A B : Type} (o : Outcome A) (k : A -> Outcome B) : Outcome B :=
  match o with
  | Ok a => k a
  | Throw e => Throw e
  end.

Declare Scope outcome_scope.
Delimit Scope outcome_scope with outcome.
Notation "x <- o ;; k" := (bindO o (fun x => k))
  (at level 61, o at next level, right associativity) : outcome_scope.

(** ** JavaScript values *)

Inductive JsValue : Type :=
| JUndefined
| JNull
| JBool (b : bool)
| JNumber (rendering : string)
| JString (s : string)
| JArray (elems : list JsValue)
| JObject (props : list (string * JsValue)).

(** Own properties of an ordinary object, first binding of a key. *)
Fixpoint getOwn (key : string) (props : list (string * JsValue)) : option JsValue :=
  match props with
  | [] => None
  | (k, v) :: rest => if String.eqb k key then Some v else getOwn key rest
  end.

Definition hasOwn (key : string) (props : list (string * JsValue)) : bool :=
  match getOwn key props with
  | Some _ => true
  | None => false
  end.

(** The names every ordinary object inherits from [Object.prototype]
    (ECMA-262, 20.1.3 and B.2.2). *)
Definition ObjectPrototypeKeys : list string :=
  [ "constructor"; "hasOwnProperty"; "isPrototypeOf"; "propertyIsEnumerable";
    "toLocaleString"; "toString"; "valueOf"; "__proto__";
    "__defineGetter__"; "__defineSetter__"; "__lookupGetter__"; "__lookupSetter__" ].

Definition inherited (key : string) : bool :=
  existsb (String.eqb key) ObjectPrototypeKeys.

(** [typeof v === 'object'] *)
Definition typeof_object (v : JsValue) : bool :=
  match v with
  | JNull | JArray _ | JObject _ => true
  | _ => false
  end.

(** [typeof v === 'string'] *)
Definition typeof_string (v : JsValue) : bool :=
  match v with
  | JString _ => true
  | _ => false
  end.

(** [key in v]: a TypeError unless [v] is an object; own properties, then the
    prototype chain ([Array.prototype] adds names too, but the program never
    asks an array). *)
Definition js_in (key : string) (v : JsValue) : Outcome bool :=
  match v with
  | JObject props => Ok (hasOwn key props || inherited key)
  | JArray _ => Ok (inherited key)
  | _ => Throw TypeError
  end.

(** [v.key] for a key that is not inherited: the own property or [undefined]. *)
Definition js_get (key : string) (v : JsValue) : JsValue :=
  match v with
  | JObject props =>
      match getOwn key props with
      | Some x => x
      | None => JUndefined
      end
  | _ => JUndefined
  end.

(** [ToString] (ECMA-262, 7.1.17); also [String(v)], which differs only on
    Symbols.  An array joins its elements with a comma, [undefined] and
    [null] elements as the empty text.  An ordinary object goes through
    [OrdinaryToPrimitive] with hint string: an own [toString] property of
    data is not callable and [Object.prototype.valueOf] returns the object,
    so the conversion throws a TypeError; otherwise the inherited
    [toString] answers "[object Object]". *)
Fixpoint ToString (v : JsValue) : Outcome string :=
  match v with
  | JUndefined => Ok "undefined"
  | JNull => Ok "null"
  | JBool true => Ok "true"
  | JBool false => Ok "false"
  | JNumber rendering => Ok rendering
  | JString s => Ok s
  | JArray elems =>
      (fix join (first : bool) (l : list JsValue) {struct l} : Outcome string :=
         match l with
         | [] => Ok ""
         | x :: rest =>
             (piece <- match x with
                       | JUndefined | JNull => Ok ""
                       | _ => ToString x
                       end ;;
              tail <- join false rest ;;
              Ok ((if first then "" else ",") ++ piece ++ tail))%outcome
         end) true elems
  | JObject props =>
      if hasOwn "toString" props then Throw TypeError else Ok "[object Object]"
  end.

Definition js_String (v : JsValue) : Outcome JsValue :=
  (s <- ToString v ;; Ok (JString s))%outcome.

(** [!v] is [negb (truthy v)] (ECMA-262, 7.1.2). *)
Definition truthy (v : JsValue) : bool :=
  match v with
  | JUndefined | JNull => false
  | JBool b => b
  | JNumber rendering => negb (String.eqb rendering "0" || String.eqb rendering "NaN")
  | JString s => negb (String.eqb s "")
  | JArray _ | JObject _ => true
  end.

(** ** The value normalizer (index.tsx, 354-369)

    The declared result type is [string], but [(v as any).text as string] is
    erased at run time: the property comes back as it is. *)
Fixpoint normalizeText (v : JsValue) : Outcome JsValue :=
  match v with
  | JUndefined | JNull => Ok (JString "")
  | JString _ => Ok v
  | JArray elems =>
      match elems with
      | [] => Ok (JString "")
      | first :: _ => normalizeText first
      end
  | _ =>
      if typeof_object v then
        (hasText <- js_in "text" v ;;
         if hasText then Ok (js_get "text" v) else
         hasName <- js_in "name" v ;;
         if hasName then Ok (js_get "name" v) else
         js_String v)%outcome
      else js_String v
  end.

(** The value a chain of first elements ends in; [v[0]] of an empty array
    is never read, the code answers the empty text before. *)
Fixpoint firstLeaf (v : JsValue) : JsValue :=
  match v with
  | JArray [] => JString ""
  | JArray (first :: _) => firstLeaf first
  | _ => v
  end.

(** The shapes on which the normalizer answers a string: the leaf is no
    object, or its [text] (else its [name]) holds a string, or it has neither
    and [String] can convert it. *)
Definition stringShaped (leaf : JsValue) : bool :=
  match leaf with
  | JObject props =>
      match getOwn "text" props, getOwn "name" props with
      | Some t, _ => typeof_string t
      | None, Some n => typeof_string n
      | None, None => negb (hasOwn "toString" props)
      end
  | _ => true
  end.

(** ** Awaited host calls

    An [Async] computation is one stretch of the [async] function: it may
    throw, and it records the [getValue] calls it has issued, in order, also
    when it throws. *)

Definition Call : Type := (string * string)%type.  (* field id, record id *)

Definition Async (A : Type) : Type := list Call -> Outcome A * list Call.

Definition retA {A : Type} (a : A) : Async A := fun calls => (Ok a, calls).

Definition bindA {A B : Type} (m : Async A) (k : A -> Async B) : Async B :=
  fun calls =>
    match m calls with
    | (Ok a, calls') => k a calls'
    | (Throw e, calls') => (Throw e, calls')
    end.

Definition liftO {A : Type} (o : Outcome A) : Async A := fun calls => (o, calls).

Declare Scope async_scope.
Delimit Scope async_scope with async.
Notation "x <- m ;; k" := (bindA m (fun x => k))
  (at level 61, m at next level, right associativity) : async_scope.

(** The host: the active table of the base and the dashboard. A rejected
    promise is a [Throw] at the [await]. *)
Record Host : Type := {
  getActiveTable : Outcome unit;
  getRecordIdList : Outcome (list string);
  getField : string -> Outcome unit;
  getValue : string -> string -> Outcome JsValue;
  hasSetRendered : bool
}.

(** [await field.getValue(recordId)] *)
Definition awaitValue (h : Host) (fieldId recordId : string) : Async JsValue :=
  fun calls => (getValue h fieldId recordId, (calls ++ [(fieldId, recordId)])%list).

(** ** Tallies (index.tsx, 115-123) *)

Record Tally : Type := mkTally {
  aiNormal : nat;
  aiViolation : nat;
  reviewerNormal : nat;
  reviewerViolation : nat
}.

Definition zeroTally : Tally := mkTally 0 0 0 0.

Definition incAiNormal (t : Tally) : Tally :=
  mkTally (aiNormal t + 1) (aiViolation t) (reviewerNormal t) (reviewerViolation t).
Definition incAiViolation (t : Tally) : Tally :=
  mkTally (aiNormal t) (aiViolation t + 1) (reviewerNormal t) (reviewerViolation t).
Definition incReviewerNormal (t : Tally) : Tally :=
  mkTally (aiNormal t) (aiViolation t) (reviewerNormal t + 1) (reviewerViolation t).
Definition incReviewerViolation (t : Tally) : Tally :=
  mkTally (aiNormal t) (aiViolation t) (reviewerNormal t) (reviewerViolation t + 1).

(** The own properties of [map], in the order they were created. *)
Definition TallyMap : Type := list (string * Tally).

Fixpoint ownTally (key : string) (m : TallyMap) : option Tally :=
  match m with
  | [] => None
  | (k, t) :: rest => if String.eqb k key then Some t else ownTally key rest
  end.

(** What [map[key]] evaluates to: [map] is an object literal, so a key it
    does not own is looked up on [Object.prototype]. *)
Inductive Slot : Type :=
| OwnSlot (t : Tally)
| InheritedSlot
| AbsentSlot.

Definition lookupSlot (key : string) (m : TallyMap) : Slot :=
  match ownTally key m with
  | Some t => OwnSlot t
  | None => if inherited key then InheritedSlot else AbsentSlot
  end.

(** [!map[key]]: tallies, functions and [Object.prototype] are truthy. *)
Definition slotMissing (s : Slot) : bool :=
  match s with
  | AbsentSlot => true
  | _ => false
  end.

(** [map[key].counter += 1]: on an own tally the counter moves; on an
    inherited slot the write lands on the built-in object and [map] stays as
    it is. *)
Fixpoint updateOwn (key : string) (f : Tally -> Tally) (m : TallyMap) : TallyMap :=
  match m with
  | [] => []
  | (k, t) :: rest =>
      if String.eqb k key then (k, f t) :: rest else (k, t) :: updateOwn key f rest
  end.

(** [v === s] for a string literal [s] *)
Definition strictEq (v : JsValue) (s : string) : bool :=
  match v with
  | JString x => String.eqb x s
  | _ => false
  end.

Definition NORMAL : string := "正常".
Definition VIOLATION : string := "违规".

(** Lines 146-151 and 153-158. *)
Definition tallyAi (key : string) (aiText : JsValue) (m : TallyMap) : TallyMap :=
  if strictEq aiText NORMAL then updateOwn key incAiNormal m
  else if strictEq aiText VIOLATION then updateOwn key incAiViolation m
  else m.

Definition tallyReviewer (key : string) (reviewerText : JsValue) (m : TallyMap) : TallyMap :=
  if strictEq reviewerText NORMAL then updateOwn key incReviewerNormal m
  else if strictEq reviewerText VIOLATION then updateOwn key incReviewerViolation m
  else m.

(** Lines 130-158 once the three raw values are there. [map[behavior]]
    converts [behavior] to a property key, which throws on what [ToString]
    throws on. *)
Definition tallyRecord (behaviorRaw aiRaw reviewerRaw : JsValue) (m : TallyMap)
  : Outcome TallyMap :=
  (behavior <- normalizeText behaviorRaw ;;
   if negb (truthy behavior) then Ok m else
   key <- ToString behavior ;;
   let m1 := if slotMissing (lookupSlot key m) then (m ++ [(key, zeroTally)])%list else m in
   aiText <- normalizeText aiRaw ;;
   reviewerText <- normalizeText reviewerRaw ;;
   Ok (tallyReviewer key reviewerText (tallyAi key aiText m1)))%outcome.

(** The body of the loop (lines 126-158). *)
Definition processRecord (h : Host) (behaviorField aiField reviewerField : string)
  (recordId : string) (m : TallyMap) : Async TallyMap :=
  (behaviorRaw <- awaitValue h behaviorField recordId ;;
   aiRaw <- awaitValue h aiField recordId ;;
   reviewerRaw <- awaitValue h reviewerField recordId ;;
   liftO (tallyRecord behaviorRaw aiRaw reviewerRaw m))%async.

Fixpoint forEachRecord (h : Host) (behaviorField aiField reviewerField : string)
  (recordIdList : list string) (m : TallyMap) : Async TallyMap :=
  match recordIdList with
  | [] => retA m
  | recordId :: rest =>
      (m' <- processRecord h behaviorField aiField reviewerField recordId m ;;
       forEachRecord h behaviorField aiField reviewerField rest m')%async
  end.

(** ** From the map to the series (index.tsx, 161-174) *)

Definition digitValue (c : ascii) : option N :=
  let n := N_of_ascii c in
  if ((48 <=? n) && (n <=? 57))%N then Some (n - 48)%N else None.

Fixpoint parseDigits (s : string) (acc : N) : option N :=
  match s with
  | EmptyString => Some acc
  | String c rest =>
      match digitValue c with
      | Some d => parseDigits rest (10 * acc + d)%N
      | None => None
      end
  end.

(** A key that is an array index (ECMA-262, 6.1.7): the canonical decimal
    text of an integer below 2^32 - 1. *)
Definition arrayIndex (key : string) : option N :=
  match key with
  | EmptyString => None
  | String c _ =>
      if String.eqb key "0" || negb (Ascii.eqb c "0"%char) then
        match parseDigits key 0%N with
        | Some n => if (n <=? 4294967294)%N then Some n else None
        | None => None
        end
      else None
  end.

Section StableSort.
Context {A : Type}.

(** [after x y]: the comparison function puts [x] behind [y]. *)
Variable after : A -> A -> bool.

Fixpoint insertSorted (x : A) (l : list A) : list A :=
  match l with
  | [] => [x]
  | y :: rest => if after x y then y :: insertSorted x rest else x :: l
  end.

(** The order [Array.prototype.sort] leaves for a consistent comparison
    function: sorted, elements that compare equal in their first order
    (ECMA-262, 23.1.3.30). *)
Fixpoint stableSort (l : list A) : list A :=
  match l with
  | [] => []
  | x :: rest => insertSorted x (stableSort rest)
  end.
End StableSort.

Definition isIndexKey (entry : string * Tally) : bool :=
  match arrayIndex (fst entry) with
  | Some _ => true
  | None => false
  end.

Definition indexAfter (a b : string * Tally) : bool :=
  match arrayIndex (fst a), arrayIndex (fst b) with
  | Some i, Some j => (j <? i)%N
  | _, _ => false
  end.

(** [Object.entries(map)]: array-index keys in ascending order, then the
    other keys in the order they were created (ECMA-262, 10.1.11). *)
Definition Object_entries (m : TallyMap) : list (string * Tally) :=
  (stableSort indexAfter (filter isIndexKey m)
   ++ filter (fun entry => negb (isIndexKey entry)) m)%list.

Module ILinePoint.
Record t : Type := mk {
  behavior : string;
  aiNormal : nat;
  aiViolation : nat;
  reviewerNormal : nat;
  reviewerViolation : nat
}.
End ILinePoint.
Abbreviation ILinePoint := ILinePoint.t.

Definition toPoint (entry : string * Tally) : ILinePoint :=
  let '(behavior, v) := entry in
  ILinePoint.mk behavior (aiNormal v) (aiViolation v) (reviewerNormal v) (reviewerViolation v).

(** [a.localeCompare(b, 'zh-CN')]: negative, zero or positive. *)
Class Collator : Type := {
  localeCompare : string -> string -> Z
}.

(** What ECMA-262 (22.1.3.12) asks of it, the values being left to the
    implementation: a consistent comparison function, that is a total order
    up to ties. *)
Definition consistent (C : Collator) : Prop :=
  (forall a b, Z.sgn (localeCompare b a) = (- Z.sgn (localeCompare a b))%Z)
  /\ (forall a b c,
        (localeCompare a b <= 0)%Z -> (localeCompare b c <= 0)%Z ->
        (localeCompare a c <= 0)%Z).

Definition pointAfter `{Collator} (a b : ILinePoint) : bool :=
  (0 <? localeCompare (ILinePoint.behavior a) (ILinePoint.behavior b))%Z.

Definition seriesOf `{Collator} (m : TallyMap) : list ILinePoint :=
  stableSort pointAfter (List.map toPoint (Object_entries m)).

(** ** The component state and the fetch effect (index.tsx, 46-52, 98-190) *)

Record IChartConfig : Type := {
  behaviorFieldId : option string;
  aiFieldId : option string;
  reviewerFieldId : option string
}.

Definition defaultConfig : IChartConfig :=
  {| behaviorFieldId := None; aiFieldId := None; reviewerFieldId := None |}.

(** [!field] for a field of the configuration *)
Definition unset (field : option string) : bool :=
  match field with
  | Some id => String.eqb id ""
  | None => true
  end.

(** [field as string] *)
Definition asString (field : option string) : string :=
  match field with
  | Some id => id
  | None => ""
  end.

Record State : Type := mkState {
  config : IChartConfig;
  data : list ILinePoint;
  loading : bool;
  rendered : nat   (* calls of dashboard.setRendered() so far *)
}.

Definition initialState : State := mkState defaultConfig [] false 0.

Definition setConfig (c : IChartConfig) (st : State) : State :=
  mkState c (data st) (loading st) (rendered st).
Definition setData (d : list ILinePoint) (st : State) : State :=
  mkState (config st) d (loading st) (rendered st).
Definition setLoading (b : bool) (st : State) : State :=
  mkState (config st) (data st) b (rendered st).
Definition signalRendered (h : Host) (st : State) : State :=
  if hasSetRendered h
  then mkState (config st) (data st) (loading st) (rendered st + 1)
  else st.

(** The [try] block (lines 106-176) up to [setData]. *)
Definition aggregation `{Collator} (h : Host)
  (behaviorField aiField reviewerField : string) : Async (list ILinePoint) :=
  (_ <- liftO (getActiveTable h) ;;
   recordIdList <- liftO (getRecordIdList h) ;;
   _ <- liftO (getField h behaviorField) ;;
   _ <- liftO (getField h aiField) ;;
   _ <- liftO (getField h reviewerField) ;;
   map <- forEachRecord h behaviorField aiField reviewerField recordIdList [] ;;
   retA (seriesOf map))%async.

(** The effect, run to the end of its [finally]; it answers the state and
    the [getValue] calls it made. *)
Definition fetchEffect `{Collator} (isConfig : bool) (h : Host) (st : State)
  : State * list Call :=
  if isConfig then (st, []) else
  let c := config st in
  if unset (behaviorFieldId c) || unset (aiFieldId c) || unset (reviewerFieldId c)
  then (st, []) else
  let st1 := setLoading true st in
  let '(outcome, calls) :=
    aggregation h (asString (behaviorFieldId c)) (asString (aiFieldId c))
      (asString (reviewerFieldId c)) [] in
  let st2 :=
    match outcome with
    | Ok result => setData result st1
    | Throw _ => st1
    end in
  (signalRendered h (setLoading false st2), calls).

(** The configuration gate of section 4.3, as the effect tests it. *)
Definition gate (c : IChartConfig) : bool :=
  negb (unset (behaviorFieldId c) || unset (aiFieldId c) || unset (reviewerFieldId c)).

Definition sameField (a b : option string) : bool :=
  match a, b with
  | Some x, Some y => String.eqb x y
  | None, None => true
  | _, _ => false
  end.

(** The effect's dependency list (lines 185-190); [isConfig] is fixed here. *)
Definition sameDeps (c1 c2 : IChartConfig) : bool :=
  sameField (behaviorFieldId c1) (behaviorFieldId c2)
  && sameField (aiFieldId c1) (aiFieldId c2)
  && sameField (reviewerFieldId c1) (reviewerFieldId c2).

(** A configuration arrives ([getConfig], [onConfigChange], lines 61-79):
    [setConfig], and the effect runs again when a dependency changed.  The
    run it starts is taken to the end of its [finally] before the next
    configuration arrives. *)
Definition configArrives `{Collator} (isConfig : bool) (h : Host) (st : State)
  (c : IChartConfig) : State :=
  let st' := setConfig c st in
  if sameDeps (config st) c then st' else fst (fetchEffect isConfig h st').

(** Mounting runs the effect once on the initial state. *)
Definition mount `{Collator} (isConfig : bool) (h : Host) : State :=
  fst (fetchEffect isConfig h initialState).

Definition afterConfigs `{Collator} (isConfig : bool) (h : Host)
  (arrivals : list IChartConfig) : State :=
  fold_left (configArrives isConfig h) arrivals (mount isConfig h).

(** [h] with another list of record ids. *)
Definition withRecordIds (recordIdList : list string) (h : Host) : Host :=
  {| getActiveTable := getActiveTable h;
     getRecordIdList := Ok recordIdList;
     getField := getField h;
     getValue := getValue h;
     hasSetRendered := hasSetRendered h |}.

(** ** The loop without its log

    What one record does to the map, and what the whole list does, as plain
    outcomes; [processRecord] and [forEachRecord] are these plus the log. *)

Definition recordOutcome (h : Host) (behaviorField aiField reviewerField : string)
  (recordId : string) (m : TallyMap) : Outcome TallyMap :=
  (behaviorRaw <- getValue h behaviorField recordId ;;
   aiRaw <- getValue h aiField recordId ;;
   reviewerRaw <- getValue h reviewerField recordId ;;
   tallyRecord behaviorRaw aiRaw reviewerRaw m)%outcome.

Fixpoint listOutcome (h : Host) (behaviorField aiField reviewerField : string)
  (recordIdList : list string) (m : TallyMap) : Outcome TallyMap :=
  match recordIdList with
  | [] => Ok m
  | recordId :: rest =>
      (m' <- recordOutcome h behaviorField aiField reviewerField recordId m ;;
       listOutcome h behaviorField aiField reviewerField rest m')%outcome
  end.

(** ** What a record contributes

    The loop read as bookkeeping: a record is skipped or credits one key
    with a tally of zeros and ones.  [tallyRecord_credit] below shows that
    this is what [tallyRecord] does. *)

Definition addTally (a b : Tally) : Tally :=
  mkTally (aiNormal a + aiNormal b) (aiViolation a + aiViolation b)
          (reviewerNormal a + reviewerNormal b)
          (reviewerViolation a + reviewerViolation b).

Definition aiDelta (aiText : JsValue) : Tally :=
  if strictEq aiText NORMAL then mkTally 1 0 0 0
  else if strictEq aiText VIOLATION then mkTally 0 1 0 0
  else zeroTally.

Definition reviewerDelta (reviewerText : JsValue) : Tally :=
  if strictEq reviewerText NORMAL then mkTally 0 0 1 0
  else if strictEq reviewerText VIOLATION then mkTally 0 0 0 1
  else zeroTally.

Definition Credit : Type := option (string * Tally).

Definition contribution (behaviorRaw aiRaw reviewerRaw : JsValue) : Outcome Credit :=
  (behavior <- normalizeText behaviorRaw ;;
   if negb (truthy behavior) then Ok None else
   key <- ToString behavior ;;
   aiText <- normalizeText aiRaw ;;
   reviewerText <- normalizeText reviewerRaw ;;
   Ok (Some (key, addTally (aiDelta aiText) (reviewerDelta reviewerText))))%outcome.

Definition credit (c : Credit) (m : TallyMap) : TallyMap :=
  match c with
  | None => m
  | Some (key, d) =>
      updateOwn key (fun t => addTally t d)
        (if slotMissing (lookupSlot key m) then (m ++ [(key, zeroTally)])%list else m)
  end.

Definition recordCredit (h : Host) (behaviorField aiField reviewerField : string)
  (recordId : string) : Outcome Credit :=
  (behaviorRaw <- getValue h behaviorField recordId ;;
   aiRaw <- getValue h aiField recordId ;;
   reviewerRaw <- getValue h reviewerField recordId ;;
   contribution behaviorRaw aiRaw reviewerRaw)%outcome.

Fixpoint listCredits (h : Host) (behaviorField aiField reviewerField : string)
  (recordIdList : list string) : Outcome (list Credit) :=
  match recordIdList with
  | [] => Ok []
  | recordId :: rest =>
      (c <- recordCredit h behaviorField aiField reviewerField recordId ;;
       cs <- listCredits h behaviorField aiField reviewerField rest ;;
       Ok (c :: cs))%outcome
  end.

Definition creditAll (cs : list Credit) (m : TallyMap) : TallyMap :=
  fold_left (fun acc c => credit c acc) cs m.

(** What one credit does to the tally a key owns. *)
Definition stepFor (k : string) (o : option Tally) (c : Credit) : option Tally :=
  match c with
  | Some (key, d) =>
      if String.eqb key k then
        match o with
        | Some t => Some (addTally t d)
        | None => if inherited k then None else Some (addTally zeroTally d)
        end
      else o
  | None => o
  end.

(** Does some credit go to [key], and what do the credits to it add up to. *)
Definition creditsKey (key : string) (c : Credit) : bool :=
  match c with
  | Some (k, _) => String.eqb k key
  | None => false
  end.

Definition credited (key : string) (cs : list Credit) : bool :=
  existsb (creditsKey key) cs.

Fixpoint sumFor (key : string) (cs : list Credit) : Tally :=
  match cs with
  | [] => zeroTally
  | c :: rest =>
      match c with
      | Some (k, d) =>
          if String.eqb k key then addTally d (sumFor key rest) else sumFor key rest
      | None => sumFor key rest
      end
  end.

(** The categories a list of records shows: the keys credited that [map]
    can own. *)
Definition observed (key : string) (cs : list Credit) : bool :=
  credited key cs && negb (inherited key).

(** The order of the series: ascending under the collator. *)
Definition pointLe `{Collator} (a b : ILinePoint) : Prop :=
  (localeCompare (ILinePoint.behavior a) (ILinePoint.behavior b) <= 0)%Z.

(** No two categories of the series compare equal. *)
Definition tieFree `{Collator} (series : list ILinePoint) : Prop :=
  forall a b,
    In a series -> In b series ->
    localeCompare (ILinePoint.behavior a) (ILinePoint.behavior b) = 0%Z ->
    ILinePoint.behavior a = ILinePoint.behavior b.

(** ** Sample collators and hosts *)

Definition signOf (c : comparison) : Z :=
  match c with
  | Lt => (-1)%Z
  | Eq => 0%Z
  | Gt => 1%Z
  end.

(** Byte order after a key function: how a collator compares sort keys. *)
Definition keyCompare (sortKey : string -> string) (a b : string) : Z :=
  signOf (String.compare (sortKey a) (sortKey b)).

Definition byte (n : nat) : ascii := ascii_of_nat n.

(** U+F900, a CJK compatibility ideograph, and U+8C48, the unified ideograph
    it is canonically equivalent to (UnicodeData.txt: F900 decomposes to
    8C48), in UTF-8. *)
Definition cjkCompatibility : string :=
  String (byte 239) (String (byte 164) (String (byte 128) EmptyString)).
Definition cjkUnified : string :=
  String (byte 232) (String (byte 177) (String (byte 136) EmptyString)).

(** The one canonical mapping the sample needs: U+F900 becomes U+8C48. *)
Fixpoint foldCompatibility (s : string) : string :=
  match s with
  | EmptyString => EmptyString
  | String c1 rest1 =>
      match rest1 with
      | String c2 (String c3 rest3) =>
          if Ascii.eqb c1 (byte 239) && Ascii.eqb c2 (byte 164) && Ascii.eqb c3 (byte 128)
          then String (byte 232) (String (byte 177) (String (byte 136)
                 (foldCompatibility rest3)))
          else String c1 (foldCompatibility rest1)
      | _ => String c1 (foldCompatibility rest1)
      end
  end.

(** Code-unit order, and an order that follows the canonical equivalence
    above, as ECMA-262 asks of [localeCompare]. *)
Definition ordinalCollator : Collator :=
  {| localeCompare := keyCompare (fun s => s) |}.
Definition canonicalCollator : Collator :=
  {| localeCompare := keyCompare foldCompatibility |}.

(** A table held in memory: a record is its id and the three raw values,
    the columns are named "behavior", "ai" and "reviewer". *)
Definition Row : Type := (string * (JsValue * JsValue * JsValue))%type.

Fixpoint rowValue (rows : list Row) (fieldId recordId : string) : Outcome JsValue :=
  match rows with
  | [] => Throw (HostError "no such record")
  | (id, (b, a, r)) :: rest =>
      if String.eqb id recordId then
        if String.eqb fieldId "behavior" then Ok b
        else if String.eqb fieldId "ai" then Ok a
        else if String.eqb fieldId "reviewer" then Ok r
        else Throw (HostError "no such field")
      else rowValue rest fieldId recordId
  end.

Definition tableHost (rows : list Row) : Host :=
  {| getActiveTable := Ok tt;
     getRecordIdList := Ok (List.map fst rows);
     getField := fun _ => Ok tt;
     getValue := rowValue rows;
     hasSetRendered := true |}.

Definition textRow (id behavior ai reviewer : string) : Row :=
  (id, (JString behavior, JString ai, JString reviewer)).

Definition fullConfig : IChartConfig :=
  {| behaviorFieldId := Some "behavior";
     aiFieldId := Some "ai";
     reviewerFieldId := Some "reviewer" |}.

(** [h] with one [getValue] call that the host rejects. *)
Definition rejecting (fieldId recordId : string) (h : Host) : Host :=
  {| getActiveTable := getActiveTable h;
     getRecordIdList := getRecordIdList h;
     getField := getField h;
     getValue := fun f r =>
       if String.eqb f fieldId && String.eqb r recordId
       then Throw (HostError "rejected")
       else getValue h f r;
     hasSetRendered := hasSetRendered h |}.

(** The scenario of section 8 of the specification. *)
Definition scenarioRows : list Row :=
  [ textRow "rec1" "A" NORMAL NORMAL;
    textRow "rec2" "A" VIOLATION NORMAL;
    textRow "rec3" "B" NORMAL VIOLATION ].

Definition scenarioSeries : list ILinePoint :=
  [ ILinePoint.mk "A" 1 1 2 0; ILinePoint.mk "B" 1 0 0 1 ].

Definition blankCategoryRows : list Row :=
  [ textRow "rec1" "A" NORMAL NORMAL; textRow "rec2" "" NORMAL VIOLATION ].

Definition constructorRows : list Row :=
  [ textRow "rec1" "constructor" NORMAL VIOLATION ].

Definition valueOfRows : list Row :=
  [ textRow "rec1" "valueOf" NORMAL VIOLATION; textRow "rec2" "B" NORMAL VIOLATION ].

Definition tiedRows : list Row :=
  [ textRow "rec1" cjkCompatibility NORMAL VIOLATION;
    textRow "rec2" cjkUnified VIOLATION NORMAL ].

(** A configuration that lost its AI column. *)
Definition partialConfig : IChartConfig :=
  {| behaviorFieldId := Some "behavior";
     aiFieldId := None;
     reviewerFieldId := Some "reviewer" |}.

(** ** The rest of the component

    The configuration loaders (index.tsx, 61-79), the save button (236-245),
    the three selects of the configuration panel (200-234) and the choice of
    the view (193, 262-329). *)

(** [v?.key]: [undefined] on [null] and [undefined], the property
    otherwise (a primitive has no own "config" or "data"). *)
Definition optChain (v : JsValue) (key : string) : JsValue :=
  match v with
  | JUndefined | JNull => JUndefined
  | _ => js_get key v
  end.

(** What the [getConfig] handler passes to [setConfig], when it calls it
    (lines 62-66). *)
Definition loadedConfig (res : JsValue) : option JsValue :=
  let c := optChain res "config" in
  if truthy c then Some c else None.

(** The same for the [onConfigChange] listener (lines 71-75). *)
Definition changedConfig (e : JsValue) : option JsValue :=
  let c := optChain (optChain e "data") "config" in
  if truthy c then Some c else None.

(** The argument of [dashboard.saveConfig] (lines 241-244). *)
Definition savedConfig (config : JsValue) : JsValue :=
  JObject [("customConfig", config); ("dataConditions", JArray [])].

(** The [onChange] handlers of the three selects:
    [setConfig((c) => ({ ...c, behaviorFieldId: val as string }))]. *)
Definition selectBehavior (val : option string) (c : IChartConfig) : IChartConfig :=
  {| behaviorFieldId := val;
     aiFieldId := aiFieldId c;
     reviewerFieldId := reviewerFieldId c |}.
Definition selectAi (val : option string) (c : IChartConfig) : IChartConfig :=
  {| behaviorFieldId := behaviorFieldId c;
     aiFieldId := val;
     reviewerFieldId := reviewerFieldId c |}.
Definition selectReviewer (val : option string) (c : IChartConfig) : IChartConfig :=
  {| behaviorFieldId := behaviorFieldId c;
     aiFieldId := aiFieldId c;
     reviewerFieldId := val |}.

(** What the component returns: the configuration panel with the three
    selected ids, the spinner, the notice of line 286 or the line chart
    over [data]. *)
Inductive View : Type :=
| ConfigPanel (c : IChartConfig)
| Spinner
| NoDataNotice
| LineChart (points : list ILinePoint).

Definition render (isConfig : bool) (st : State) : View :=
  if isConfig then ConfigPanel (config st)
  else if loading st then Spinner
  else if Nat.eqb (List.length (data st)) 0 then NoDataNotice
  else LineChart (data st).

(** ** Vocabulary of the further properties *)

(** The [getValue] calls of a run that reaches the end of the list: three
    per record, in the order of the source. *)
Definition expectedCalls (behaviorField aiField reviewerField : string)
  (recordIdList : list string) : list Call :=
  flat_map (fun recordId =>
              [ (behaviorField, recordId); (aiField, recordId);
                (reviewerField, recordId) ])
           recordIdList.

Definition succeeds {A : Type} (o : Outcome A) : Prop := exists a, o = Ok a.

Definition pointTally (p : ILinePoint) : Tally :=
  mkTally (ILinePoint.aiNormal p) (ILinePoint.aiViolation p)
          (ILinePoint.reviewerNormal p) (ILinePoint.reviewerViolation p).

(** AI verdicts and reviewer verdicts that a tally, a map or a series
    counts. *)
Definition aiCount (t : Tally) : nat := aiNormal t + aiViolation t.
Definition reviewerCount (t : Tally) : nat := reviewerNormal t + reviewerViolation t.

Definition aiTotal (series : list ILinePoint) : nat :=
  list_sum (List.map (fun p => aiCount (pointTally p)) series).
Definition reviewerTotal (series : list ILinePoint) : nat :=
  list_sum (List.map (fun p => reviewerCount (pointTally p)) series).

(** A credit moves at most one AI verdict and one reviewer verdict. *)
Definition unitCredit (c : Credit) : Prop :=
  match c with
  | Some (_, d) => aiCount d <= 1 /\ reviewerCount d <= 1
  | None => True
  end.

(** The verdicts a map counts, for a way [weight] of counting a tally. *)
Definition mapWeight (weight : Tally -> nat) (m : TallyMap) : nat :=
  list_sum (List.map (fun entry => weight (snd entry)) m).

(** What happens in the configuration panel: a select changes, or a
    configuration arrives from the dashboard. *)
Inductive PanelEvent : Type :=
| BehaviorSelected (val : option string)
| AiSelected (val : option string)
| ReviewerSelected (val : option string)
| ConfigArrived (c : IChartConfig).

Definition panelConfig (c : IChartConfig) (ev : PanelEvent) : IChartConfig :=
  match ev with
  | BehaviorSelected val => selectBehavior val c
  | AiSelected val => selectAi val c
  | ReviewerSelected val => selectReviewer val c
  | ConfigArrived c' => c'
  end.

(** The state after an event: [setConfig], then the effects whose
    dependencies changed. *)
Definition panelStep `{Collator} (isConfig : bool) (h : Host) (st : State)
  (ev : PanelEvent) : State :=
  configArrives isConfig h st (panelConfig (config st) ev).

(** A state at rest: not loading, and a series that is sorted without a
    category twice. *)
Definition settled `{Collator} (st : State) : Prop :=
  loading st = false
  /\ NoDup (List.map ILinePoint.behavior (data st))
  /\ StronglySorted pointLe (data st).

(** Rows whose verdict cells are multi-valued: a list of options. *)
Definition optionRows : list Row :=
  [ ("rec1",
     (JString "A",
      JArray [ JObject [("id", JString "opt2"); ("text", JString VIOLATION)];
               JObject [("id", JString "opt1"); ("text", JString NORMAL)] ],
      JArray [ JObject [("id", JString "u1"); ("name", JString NORMAL)];
               JObject [("id", JString "u2"); ("name", JString VIOLATION)] ])) ].

(** Rows whose category cell is a bare boolean or number. *)
Definition primitiveCategoryRows : list Row :=
  [ ("rec1", (JBool false, JString NORMAL, JString VIOLATION));
    ("rec2", (JNumber "0", JString NORMAL, JString VIOLATION)) ].

(** Rows whose category cell is a tag that holds no text. *)
Definition falsyCategoryRows : list Row :=
  [ ("rec1", (JObject [("id", JString "opt1"); ("text", JNumber "0")],
              JString NORMAL, JString VIOLATION));
    textRow "rec2" "A" NORMAL NORMAL ].

(** Equations between tallies: componentwise arithmetic. *)
Ltac tally_eq :=
  repeat match goal with t : Tally |- _ => destruct t end;
  unfold addTally, incAiNormal, incAiViolation, incReviewerNormal,
    incReviewerViolation, zeroTally;
  cbn; f_equal; lia.

(** * Properties *)

(** ** The normalizer *)

(** Induction along the chain of first elements, the only recursion
    [normalizeText] makes. *)
Lemma first_element_ind (P : JsValue -> Prop) :
  (forall v, (forall elems, v <> JArray elems) -> P v) ->
  P (JArray []) ->
  (forall first rest, P first -> P (JArray (first :: rest))) ->
  forall v, P v.
Proof.
  intros Hleaf Hnil Hcons.
  fix IH 1.
  intros v.
  destruct v as [ | | b | r | s | elems | props ];
    try (apply Hleaf; intros elems' Heq; discriminate Heq).
  destruct elems as [ | first rest ].
  - exact Hnil.
  - apply Hcons. apply IH.
Qed.

Lemma normalizeText_object (props : list (string * JsValue)) :
  normalizeText (JObject props) =
  match getOwn "text" props with
  | Some t => Ok t
  | None =>
      match getOwn "name" props with
      | Some n => Ok n
      | None => js_String (JObject props)
      end
  end.
Proof.
  cbn [normalizeText typeof_object js_in js_get bindO].
  unfold hasOwn.
  replace (inherited "text") with false by reflexivity.
  replace (inherited "name") with false by reflexivity.
  destruct (getOwn "text" props) as [t | ]; cbn; [reflexivity | ].
  destruct (getOwn "name" props) as [n | ]; cbn; reflexivity.
Qed.

(** The normalizer answers a string on a leaf exactly when the leaf is
    [stringShaped]. *)
Lemma normalizeText_leaf (v : JsValue) :
  (forall elems, v <> JArray elems) ->
  (exists s, normalizeText v = Ok (JString s)) <-> stringShaped v = true.
Proof.
  intros Hleaf.
  destruct v as [ | | b | r | s | elems | props ].
  - split; [reflexivity | intros _; exists ""; reflexivity].
  - split; [reflexivity | intros _; exists ""; reflexivity].
  - split; [reflexivity | intros _; destruct b; eexists; reflexivity].
  - split; [reflexivity | intros _; eexists; reflexivity].
  - split; [reflexivity | intros _; eexists; reflexivity].
  - exfalso. exact (Hleaf elems eq_refl).
  - rewrite normalizeText_object. unfold stringShaped.
    destruct (getOwn "text" props) as [t | ].
    + destruct t; cbn; split;
        try (intros [s0 Hs]; discriminate Hs); try discriminate;
        try (intros [s0 Hs]; inversion Hs); try reflexivity.
      intros _. eexists. reflexivity.
    + destruct (getOwn "name" props) as [n | ].
      * destruct n; cbn; split;
          try (intros [s0 Hs]; discriminate Hs); try discriminate;
          try (intros [s0 Hs]; inversion Hs); try reflexivity.
        intros _. eexists. reflexivity.
      * unfold js_String. cbn [ToString].
        destruct (hasOwn "toString" props); cbn; split;
          try (intros [s0 Hs]; discriminate Hs); try discriminate;
          try reflexivity.
        intros _. eexists. reflexivity.
Qed.

(** C8: an array is normalized to what its first element is normalized to,
    whatever follows the first element; the empty array gives the empty
    text; [[{text:"A"}, {text:"B"}]] gives "A". *)
Theorem normalizeText_first_element :
  normalizeText (JArray []) = Ok (JString "")
  /\ (forall first rest,
        normalizeText (JArray (first :: rest)) = normalizeText first)
  /\ (forall first rest rest',
        normalizeText (JArray (first :: rest)) = normalizeText (JArray (first :: rest')))
  /\ normalizeText (JArray [ JObject [("text", JString "A")];
                             JObject [("text", JString "B")] ]) = Ok (JString "A").
Proof.
  repeat split; reflexivity.
Qed.

(** C9: on an object the normalizer answers the value of [text] when the
    object has one, else the value of [name] when it has one, else what
    [String] makes of the object; [{text:"T", name:"N"}] gives "T". *)
Theorem normalizeText_tag_precedence (props : list (string * JsValue)) :
  (forall t, getOwn "text" props = Some t -> normalizeText (JObject props) = Ok t)
  /\ (forall n,
        getOwn "text" props = None -> getOwn "name" props = Some n ->
        normalizeText (JObject props) = Ok n)
  /\ (getOwn "text" props = None -> getOwn "name" props = None ->
      normalizeText (JObject props) = js_String (JObject props))
  /\ normalizeText (JObject [("text", JString "T"); ("name", JString "N")])
     = Ok (JString "T")
  /\ normalizeText (JObject [("name", JString "N"); ("text", JString "T")])
     = Ok (JString "T").
Proof.
  repeat split; try reflexivity.
  - intros t Ht. rewrite normalizeText_object, Ht. reflexivity.
  - intros n Ht Hn. rewrite normalizeText_object, Ht, Hn. reflexivity.
  - intros Ht Hn. rewrite normalizeText_object, Ht, Hn. reflexivity.
Qed.

(** C5, as stated, fails twice: a [text] that holds no string comes back as
    it is, and [String] throws on an object that owns a [toString]. *)
Lemma normalizeText_not_always_string :
  normalizeText (JObject [("text", JNull)]) = Ok JNull
  /\ normalizeText (JObject [("text", JNumber "42")]) = Ok (JNumber "42")
  /\ normalizeText (JArray [JObject [("id", JString "opt1"); ("toString", JNumber "1")]])
     = Throw TypeError.
Proof.
  repeat split; reflexivity.
Qed.

Lemma normalizeText_firstLeaf (v : JsValue) :
  normalizeText v = normalizeText (firstLeaf v).
Proof.
  induction v as [v Hleaf | | first rest IH] using first_element_ind.
  - destruct v as [ | | b | r | s | elems | props ]; try reflexivity.
    exfalso. exact (Hleaf elems eq_refl).
  - reflexivity.
  - exact IH.
Qed.

Lemma firstLeaf_leaf (v : JsValue) : forall elems, firstLeaf v <> JArray elems.
Proof.
  induction v as [v Hleaf | | first rest IH] using first_element_ind.
  - destruct v as [ | | b | r | s | elems | props ]; try (intros; discriminate).
    exfalso. exact (Hleaf elems eq_refl).
  - intros; discriminate.
  - exact IH.
Qed.

(** The normalizer throws on a leaf exactly when [String] is reached on an
    object that owns a [toString]. *)
Lemma normalizeText_leaf_throws (v : JsValue) :
  (forall elems, v <> JArray elems) ->
  (exists e, normalizeText v = Throw e) <->
  (exists props,
      v = JObject props /\ getOwn "text" props = None
      /\ getOwn "name" props = None /\ hasOwn "toString" props = true).
Proof.
  intros Hleaf.
  destruct v as [ | | b | r | s | elems | props ];
    try (split; [ intros [e He]; try destruct b; discriminate He
                | intros [props [Hv _]]; discriminate Hv ]).
  - exfalso. exact (Hleaf elems eq_refl).
  - rewrite normalizeText_object. unfold js_String. cbn [ToString].
    destruct (getOwn "text" props) as [t | ] eqn:Ht.
    { split; [ intros [e He]; discriminate He | ].
      intros [props' [Hv [Ht' _]]]. inversion Hv; subst props'. congruence. }
    destruct (getOwn "name" props) as [n | ] eqn:Hn.
    { split; [ intros [e He]; discriminate He | ].
      intros [props' [Hv [_ [Hn' _]]]]. inversion Hv; subst props'. congruence. }
    destruct (hasOwn "toString" props) eqn:Hs; cbn.
    + split; [ | intros _; eexists; reflexivity ].
      intros _. exists props. repeat split; assumption.
    + split; [ intros [e He]; discriminate He | ].
      intros [props' [Hv [_ [_ Hs']]]]. inversion Hv; subst props'. congruence.
Qed.

(** C5, amended: the normalizer returns a string, without throwing, exactly
    on the values whose first-element chain ends in a [stringShaped] leaf;
    that covers [null], [undefined], strings, numbers, booleans, the empty
    array and the objects whose tag holds a string.  It throws exactly when
    the chain ends in an object without [text] and [name] that owns a
    [toString]; on every other value it returns the tag as it is. *)
Theorem normalizeText_string_iff (v : JsValue) :
  ((exists s, normalizeText v = Ok (JString s)) <-> stringShaped (firstLeaf v) = true)
  /\ ((exists e, normalizeText v = Throw e) <->
      (exists props,
          firstLeaf v = JObject props /\ getOwn "text" props = None
          /\ getOwn "name" props = None /\ hasOwn "toString" props = true)).
Proof.
  rewrite (normalizeText_firstLeaf v).
  split.
  - apply normalizeText_leaf. apply firstLeaf_leaf.
  - apply normalizeText_leaf_throws. apply firstLeaf_leaf.
Qed.

(** ** The loop, its log and its bookkeeping *)

Lemma processRecord_outcome (h : Host) (bf af rf id : string) (m : TallyMap)
  (calls : list Call) :
  fst (processRecord h bf af rf id m calls) = recordOutcome h bf af rf id m.
Proof.
  unfold processRecord, recordOutcome, bindA, awaitValue, liftO.
  destruct (getValue h bf id); cbn; [ | reflexivity ].
  destruct (getValue h af id); cbn; [ | reflexivity ].
  destruct (getValue h rf id); cbn; reflexivity.
Qed.

Lemma forEachRecord_outcome (h : Host) (bf af rf : string) (ids : list string) :
  forall (m : TallyMap) (calls : list Call),
    fst (forEachRecord h bf af rf ids m calls) = listOutcome h bf af rf ids m.
Proof.
  induction ids as [ | id rest IH ]; intros m calls; [ reflexivity | ].
  cbn [forEachRecord listOutcome]. unfold bindA.
  pose proof (processRecord_outcome h bf af rf id m calls) as Hfst.
  destruct (processRecord h bf af rf id m calls) as [o calls'].
  cbn in Hfst. rewrite <- Hfst.
  destruct o as [m' | e]; cbn; [ apply IH | reflexivity ].
Qed.

Lemma addTally_zero_r (t : Tally) : addTally t zeroTally = t.
Proof. tally_eq. Qed.

Lemma addTally_zero_l (t : Tally) : addTally zeroTally t = t.
Proof. tally_eq. Qed.

Lemma addTally_assoc (a b c : Tally) :
  addTally (addTally a b) c = addTally a (addTally b c).
Proof. tally_eq. Qed.

Lemma addTally_comm (a b : Tally) : addTally a b = addTally b a.
Proof. tally_eq. Qed.

Lemma updateOwn_ext (key : string) (f g : Tally -> Tally) (m : TallyMap) :
  (forall t, f t = g t) -> updateOwn key f m = updateOwn key g m.
Proof.
  intros Hfg. induction m as [ | [k t] rest IH ]; cbn; [ reflexivity | ].
  destruct (String.eqb k key); [ rewrite Hfg | rewrite IH ]; reflexivity.
Qed.

Lemma updateOwn_id (key : string) (f : Tally -> Tally) (m : TallyMap) :
  (forall t, f t = t) -> updateOwn key f m = m.
Proof.
  intros Hf. induction m as [ | [k t] rest IH ]; cbn; [ reflexivity | ].
  destruct (String.eqb k key); [ rewrite Hf | rewrite IH ]; reflexivity.
Qed.

Lemma updateOwn_compose (key : string) (f g : Tally -> Tally) (m : TallyMap) :
  updateOwn key g (updateOwn key f m) = updateOwn key (fun t => g (f t)) m.
Proof.
  induction m as [ | [k t] rest IH ]; cbn; [ reflexivity | ].
  destruct (String.eqb k key) eqn:Hk; cbn; rewrite Hk; [ reflexivity | ].
  rewrite IH. reflexivity.
Qed.

Lemma tallyAi_delta (key : string) (aiText : JsValue) (m : TallyMap) :
  tallyAi key aiText m = updateOwn key (fun t => addTally t (aiDelta aiText)) m.
Proof.
  unfold tallyAi, aiDelta.
  destruct (strictEq aiText NORMAL); [ apply updateOwn_ext; intros t; tally_eq | ].
  destruct (strictEq aiText VIOLATION); [ apply updateOwn_ext; intros t; tally_eq | ].
  symmetry. apply updateOwn_id. apply addTally_zero_r.
Qed.

Lemma tallyReviewer_delta (key : string) (reviewerText : JsValue) (m : TallyMap) :
  tallyReviewer key reviewerText m
  = updateOwn key (fun t => addTally t (reviewerDelta reviewerText)) m.
Proof.
  unfold tallyReviewer, reviewerDelta.
  destruct (strictEq reviewerText NORMAL); [ apply updateOwn_ext; intros t; tally_eq | ].
  destruct (strictEq reviewerText VIOLATION); [ apply updateOwn_ext; intros t; tally_eq | ].
  symmetry. apply updateOwn_id. apply addTally_zero_r.
Qed.

(** [tallyRecord] credits the map with the record's contribution. *)
Lemma tallyRecord_credit (behaviorRaw aiRaw reviewerRaw : JsValue) (m : TallyMap) :
  tallyRecord behaviorRaw aiRaw reviewerRaw m
  = (c <- contribution behaviorRaw aiRaw reviewerRaw ;; Ok (credit c m))%outcome.
Proof.
  unfold tallyRecord, contribution.
  destruct (normalizeText behaviorRaw) as [behavior | e]; cbn; [ | reflexivity ].
  destruct (truthy behavior); cbn; [ | reflexivity ].
  destruct (ToString behavior) as [key | e]; cbn; [ | reflexivity ].
  destruct (normalizeText aiRaw) as [aiText | e]; cbn; [ | reflexivity ].
  destruct (normalizeText reviewerRaw) as [reviewerText | e]; cbn; [ | reflexivity ].
  rewrite tallyReviewer_delta, tallyAi_delta, updateOwn_compose.
  f_equal. apply updateOwn_ext. intros t. apply addTally_assoc.
Qed.

Lemma recordOutcome_credit (h : Host) (bf af rf id : string) (m : TallyMap) :
  recordOutcome h bf af rf id m
  = (c <- recordCredit h bf af rf id ;; Ok (credit c m))%outcome.
Proof.
  unfold recordOutcome, recordCredit.
  destruct (getValue h bf id); cbn; [ | reflexivity ].
  destruct (getValue h af id); cbn; [ | reflexivity ].
  destruct (getValue h rf id); cbn; [ | reflexivity ].
  apply tallyRecord_credit.
Qed.

Lemma listOutcome_credits (h : Host) (bf af rf : string) (ids : list string) :
  forall m,
    listOutcome h bf af rf ids m
    = (cs <- listCredits h bf af rf ids ;; Ok (creditAll cs m))%outcome.
Proof.
  induction ids as [ | id rest IH ]; intros m; [ reflexivity | ].
  cbn [listOutcome listCredits]. rewrite recordOutcome_credit.
  destruct (recordCredit h bf af rf id) as [c | e]; cbn; [ | reflexivity ].
  rewrite IH.
  destruct (listCredits h bf af rf rest) as [cs | e]; cbn; reflexivity.
Qed.

(** The run up to the series, without the log. *)
Lemma aggregation_outcome `{Collator} (h : Host) (bf af rf : string)
  (calls : list Call) :
  fst (aggregation h bf af rf calls)
  = (_ <- getActiveTable h ;;
     ids <- getRecordIdList h ;;
     _ <- getField h bf ;;
     _ <- getField h af ;;
     _ <- getField h rf ;;
     m <- listOutcome h bf af rf ids [] ;;
     Ok (seriesOf m))%outcome.
Proof.
  unfold aggregation, bindA, liftO, retA.
  destruct (getActiveTable h); cbn; [ | reflexivity ].
  destruct (getRecordIdList h) as [ids | e]; cbn; [ | reflexivity ].
  destruct (getField h bf); cbn; [ | reflexivity ].
  destruct (getField h af); cbn; [ | reflexivity ].
  destruct (getField h rf); cbn; [ | reflexivity ].
  pose proof (forEachRecord_outcome h bf af rf ids [] calls) as Hfst.
  destruct (forEachRecord h bf af rf ids [] calls) as [o calls'].
  cbn in Hfst. rewrite <- Hfst. destruct o; reflexivity.
Qed.

(** ** What the map owns after a list of credits *)

Lemma ownTally_app (k key : string) (t : Tally) (m : TallyMap) :
  ownTally k (m ++ [(key, t)])%list =
  match ownTally k m with
  | Some x => Some x
  | None => if String.eqb key k then Some t else None
  end.
Proof.
  induction m as [ | [k0 t0] rest IH ]; cbn; [ reflexivity | ].
  destruct (String.eqb k0 k); [ reflexivity | exact IH ].
Qed.

Lemma ownTally_updateOwn (k key : string) (f : Tally -> Tally) (m : TallyMap) :
  ownTally k (updateOwn key f m) =
  if String.eqb key k then option_map f (ownTally k m) else ownTally k m.
Proof.
  induction m as [ | [k0 t0] rest IH ]; cbn.
  - destruct (String.eqb key k); reflexivity.
  - destruct (String.eqb_spec k0 key) as [-> | Hne]; cbn.
    + destruct (String.eqb key k); reflexivity.
    + destruct (String.eqb_spec k0 k) as [-> | Hne'].
      * destruct (String.eqb_spec key k) as [-> | _]; [ contradiction | reflexivity ].
      * exact IH.
Qed.

Lemma ownTally_credit (k : string) (c : Credit) (m : TallyMap) :
  ownTally k (credit c m) = stepFor k (ownTally k m) c.
Proof.
  destruct c as [[key d] | ]; [ | reflexivity ].
  unfold credit, stepFor, lookupSlot.
  destruct (ownTally key m) as [t | ] eqn:Hown; cbn [slotMissing].
  - rewrite ownTally_updateOwn.
    destruct (String.eqb_spec key k) as [-> | _]; [ | reflexivity ].
    rewrite Hown. reflexivity.
  - destruct (inherited key) eqn:Hinh; cbn [slotMissing].
    + rewrite ownTally_updateOwn.
      destruct (String.eqb_spec key k) as [-> | _]; [ | reflexivity ].
      rewrite Hown, Hinh. reflexivity.
    + rewrite ownTally_updateOwn, ownTally_app.
      destruct (String.eqb_spec key k) as [-> | _].
      * rewrite Hown, Hinh. reflexivity.
      * destruct (ownTally k m); reflexivity.
Qed.

Lemma ownTally_creditAll (k : string) (cs : list Credit) :
  forall m, ownTally k (creditAll cs m) = fold_left (stepFor k) cs (ownTally k m).
Proof.
  unfold creditAll.
  induction cs as [ | c rest IH ]; intros m; cbn; [ reflexivity | ].
  rewrite IH, ownTally_credit. reflexivity.
Qed.

Lemma stepFor_inherited (k : string) (cs : list Credit) :
  inherited k = true -> fold_left (stepFor k) cs None = None.
Proof.
  intros Hinh.
  induction cs as [ | [[key d] | ] rest IH ]; cbn [fold_left stepFor]; try assumption.
  - reflexivity.
  - destruct (String.eqb key k); [ rewrite Hinh | ]; exact IH.
Qed.

Lemma sumFor_uncredited (k : string) (cs : list Credit) :
  credited k cs = false -> sumFor k cs = zeroTally.
Proof.
  unfold credited.
  induction cs as [ | [[key d] | ] rest IH ]; cbn [existsb creditsKey sumFor]; intros Hc.
  - reflexivity.
  - destruct (String.eqb key k); [ discriminate Hc | apply IH; exact Hc ].
  - apply IH. exact Hc.
Qed.

Lemma stepFor_sum (k : string) (cs : list Credit) :
  inherited k = false ->
  forall o,
    fold_left (stepFor k) cs o =
    if credited k cs
    then Some (addTally (match o with Some t => t | None => zeroTally end) (sumFor k cs))
    else o.
Proof.
  intros Hinh.
  induction cs as [ | [[key d] | ] rest IH ]; intros o.
  - reflexivity.
  - unfold credited in *. cbn [fold_left stepFor existsb creditsKey sumFor].
    destruct (String.eqb key k); cbn [orb]; [ | apply IH ].
    rewrite IH.
    pose proof (sumFor_uncredited k rest) as Hzero. unfold credited in Hzero.
    destruct (existsb (creditsKey k) rest).
    + destruct o as [t | ]; [ | rewrite Hinh ]; rewrite addTally_assoc; reflexivity.
    + rewrite (Hzero eq_refl), addTally_zero_r.
      destruct o as [t | ]; [ | rewrite Hinh ]; reflexivity.
  - unfold credited in *. cbn [fold_left stepFor existsb creditsKey sumFor orb].
    apply IH.
Qed.

(** The map after the credits owns a key exactly when the key is
    [observed], with the sum of what was credited to it. *)
Lemma ownTally_observed (k : string) (cs : list Credit) :
  ownTally k (creditAll cs []) = if observed k cs then Some (sumFor k cs) else None.
Proof.
  rewrite ownTally_creditAll. cbn [ownTally]. unfold observed.
  destruct (inherited k) eqn:Hinh.
  - rewrite stepFor_inherited by assumption. rewrite andb_false_r. reflexivity.
  - rewrite stepFor_sum by assumption. rewrite andb_true_r.
    destruct (credited k cs); [ rewrite addTally_zero_l | ]; reflexivity.
Qed.

Lemma credited_perm (k : string) (cs cs' : list Credit) :
  Permutation cs cs' -> credited k cs = credited k cs'.
Proof.
  unfold credited.
  induction 1 as [ | c l l' _ IH | c c' l | l l' l'' _ IH1 _ IH2 ]; cbn.
  - reflexivity.
  - rewrite IH. reflexivity.
  - destruct (creditsKey k c), (creditsKey k c'); reflexivity.
  - congruence.
Qed.

Lemma sumFor_perm (k : string) (cs cs' : list Credit) :
  Permutation cs cs' -> sumFor k cs = sumFor k cs'.
Proof.
  induction 1 as [ | c l l' _ IH | c c' l | l l' l'' _ IH1 _ IH2 ]; cbn.
  - reflexivity.
  - rewrite IH. reflexivity.
  - destruct c as [[k1 d1] | ], c' as [[k2 d2] | ]; try reflexivity.
    destruct (String.eqb k1 k), (String.eqb k2 k); try reflexivity.
    rewrite <- !addTally_assoc. f_equal. apply addTally_comm.
  - congruence.
Qed.

(** The keys the map owns stay distinct. *)
Lemma ownTally_None (k : string) (m : TallyMap) :
  ownTally k m = None <-> ~ In k (List.map fst m).
Proof.
  induction m as [ | [k0 t0] rest IH ]; cbn.
  - split; [ intros _ [] | reflexivity ].
  - destruct (String.eqb_spec k0 k) as [-> | Hne].
    + split; [ discriminate | intros Hn; exfalso; apply Hn; left; reflexivity ].
    + rewrite IH. split; [ intros Hn [He | Hi]; [ contradiction | auto ] | auto ].
Qed.

Lemma keys_updateOwn (key : string) (f : Tally -> Tally) (m : TallyMap) :
  List.map fst (updateOwn key f m) = List.map fst m.
Proof.
  induction m as [ | [k t] rest IH ]; cbn; [ reflexivity | ].
  destruct (String.eqb k key); cbn; [ | rewrite IH ]; reflexivity.
Qed.

Lemma keys_credit (c : Credit) (m : TallyMap) :
  NoDup (List.map fst m) -> NoDup (List.map fst (credit c m)).
Proof.
  intros Hnd. destruct c as [[key d] | ]; [ | exact Hnd ].
  unfold credit. rewrite keys_updateOwn. unfold lookupSlot.
  destruct (ownTally key m) as [t | ] eqn:Hown; cbn [slotMissing]; [ exact Hnd | ].
  destruct (inherited key); cbn [slotMissing]; [ exact Hnd | ].
  rewrite List.map_app. cbn.
  apply (Permutation_NoDup (l := key :: List.map fst m)).
  - apply Permutation_cons_append.
  - constructor; [ apply ownTally_None; exact Hown | exact Hnd ].
Qed.

Lemma keys_creditAll (cs : list Credit) :
  forall m, NoDup (List.map fst m) -> NoDup (List.map fst (creditAll cs m)).
Proof.
  unfold creditAll.
  induction cs as [ | c rest IH ]; intros m Hnd; cbn; [ exact Hnd | ].
  apply IH. apply keys_credit. exact Hnd.
Qed.

Lemma ownTally_In (k : string) (t : Tally) (m : TallyMap) :
  NoDup (List.map fst m) -> (In (k, t) m <-> ownTally k m = Some t).
Proof.
  induction m as [ | [k0 t0] rest IH ]; cbn; intros Hnd.
  - split; [ intros [] | discriminate ].
  - inversion Hnd as [ | x l Hnotin Hnd' ]; subst.
    destruct (String.eqb_spec k0 k) as [-> | Hne].
    + split.
      * intros [He | Hi]; [ congruence | ].
        exfalso. apply Hnotin. apply (in_map fst) in Hi. exact Hi.
      * intros He. left. congruence.
    + rewrite <- (IH Hnd'). split; [ intros [He | Hi]; [ congruence | exact Hi ] | auto ].
Qed.

Lemma same_tallies_perm (m m' : TallyMap) :
  NoDup (List.map fst m) -> NoDup (List.map fst m') ->
  (forall k, ownTally k m = ownTally k m') ->
  Permutation m m'.
Proof.
  intros Hnd Hnd' Hsame.
  apply NoDup_Permutation.
  - apply (NoDup_map_inv fst). exact Hnd.
  - apply (NoDup_map_inv fst). exact Hnd'.
  - intros [k t]. rewrite (ownTally_In k t m Hnd), (ownTally_In k t m' Hnd'), Hsame.
    reflexivity.
Qed.

(** The map does not depend on the order of the credits, up to the order
    in which its keys were created. *)
Lemma creditAll_perm (cs cs' : list Credit) :
  Permutation cs cs' -> Permutation (creditAll cs []) (creditAll cs' []).
Proof.
  intros Hperm. apply same_tallies_perm.
  - apply keys_creditAll. constructor.
  - apply keys_creditAll. constructor.
  - intros k. rewrite !ownTally_observed. unfold observed.
    rewrite (credited_perm k cs cs' Hperm), (sumFor_perm k cs cs' Hperm). reflexivity.
Qed.

Lemma listCredits_perm (h : Host) (bf af rf : string) (ids ids' : list string) :
  Permutation ids ids' ->
  forall cs,
    listCredits h bf af rf ids = Ok cs ->
    exists cs', listCredits h bf af rf ids' = Ok cs' /\ Permutation cs cs'.
Proof.
  induction 1 as [ | id l l' _ IH | id1 id2 l | l l' l'' _ IH1 _ IH2 ]; intros cs Hcs.
  - exists cs. split; [ exact Hcs | apply Permutation_refl ].
  - cbn in *. destruct (recordCredit h bf af rf id) as [c | e]; cbn in *; [ | discriminate ].
    destruct (listCredits h bf af rf l) as [cs0 | e]; cbn in *; [ | discriminate ].
    destruct (IH cs0 eq_refl) as [cs0' [Hcs0' Hp]].
    rewrite Hcs0'. cbn. inversion Hcs; subst.
    eexists. split; [ reflexivity | constructor; exact Hp ].
  - cbn in *.
    destruct (recordCredit h bf af rf id2) as [c2 | e]; cbn in *; [ | discriminate ].
    destruct (recordCredit h bf af rf id1) as [c1 | e]; cbn in *; [ | discriminate ].
    destruct (listCredits h bf af rf l) as [cs0 | e]; cbn in *; [ | discriminate ].
    inversion Hcs; subst.
    eexists. split; [ reflexivity | apply perm_swap ].
  - destruct (IH1 cs Hcs) as [cs1 [Hcs1 Hp1]].
    destruct (IH2 cs1 Hcs1) as [cs2 [Hcs2 Hp2]].
    exists cs2. split; [ exact Hcs2 | eapply Permutation_trans; eassumption ].
Qed.

(** ** Sorting *)

Section StableSortFacts.
Context {A : Type}.
Variable after : A -> A -> bool.
Variable le : A -> A -> Prop.
Hypothesis not_after_le : forall x y, after x y = false -> le x y.
Hypothesis after_ge : forall x y, after x y = true -> le y x.
Hypothesis le_trans : forall x y z, le x y -> le y z -> le x z.

Lemma insertSorted_perm (x : A) (l : list A) :
  Permutation (insertSorted after x l) (x :: l).
Proof.
  induction l as [ | y rest IH ]; cbn; [ apply Permutation_refl | ].
  destruct (after x y); [ | apply Permutation_refl ].
  eapply Permutation_trans; [ apply perm_skip; exact IH | apply perm_swap ].
Qed.

Lemma stableSort_perm (l : list A) : Permutation (stableSort after l) l.
Proof.
  induction l as [ | x rest IH ]; cbn; [ constructor | ].
  eapply Permutation_trans; [ apply insertSorted_perm | constructor; exact IH ].
Qed.

Lemma insertSorted_sorted (x : A) (l : list A) :
  StronglySorted le l -> StronglySorted le (insertSorted after x l).
Proof.
  induction l as [ | y rest IH ]; cbn; intros Hs.
  - constructor; constructor.
  - inversion Hs as [ | y' rest' Hrest Hall ]; subst.
    destruct (after x y) eqn:Hxy.
    + constructor; [ apply IH; exact Hrest | ].
      rewrite Forall_forall in Hall |- *. intros z Hz.
      apply (Permutation_in _ (insertSorted_perm x rest)) in Hz.
      destruct Hz as [<- | Hz]; [ apply after_ge; exact Hxy | apply Hall; exact Hz ].
    + constructor; [ exact Hs | ].
      pose proof (not_after_le x y Hxy) as Hle.
      constructor; [ exact Hle | ].
      eapply Forall_impl; [ | exact Hall ].
      intros z Hyz. eapply le_trans; eassumption.
Qed.

Lemma stableSort_sorted (l : list A) : StronglySorted le (stableSort after l).
Proof.
  induction l as [ | x rest IH ]; cbn; [ constructor | ].
  apply insertSorted_sorted. exact IH.
Qed.

(** Two sorted lists with the same elements are the same list once no two
    of the elements tie. *)
Lemma sorted_perm_unique (l1 : list A) :
  forall l2,
    StronglySorted le l1 -> StronglySorted le l2 -> Permutation l1 l2 ->
    (forall a b, In a l1 -> In b l1 -> le a b -> le b a -> a = b) ->
    l1 = l2.
Proof.
  induction l1 as [ | x rest1 IH ]; intros l2 Hs1 Hs2 Hperm Hanti.
  - apply Permutation_nil in Hperm. symmetry. exact Hperm.
  - destruct l2 as [ | y rest2 ].
    { apply Permutation_sym, Permutation_nil in Hperm. discriminate Hperm. }
    inversion Hs1 as [ | x' r1 Hrest1 Hall1 ]; subst.
    inversion Hs2 as [ | y' r2 Hrest2 Hall2 ]; subst.
    assert (Hxy : x = y).
    { assert (Hx : In x (y :: rest2))
        by (eapply Permutation_in; [ exact Hperm | left; reflexivity ]).
      assert (Hy : In y (x :: rest1))
        by (eapply Permutation_in; [ apply Permutation_sym; exact Hperm | left; reflexivity ]).
      destruct Hx as [Hx | Hx]; [ congruence | ].
      destruct Hy as [Hy | Hy]; [ congruence | ].
      rewrite Forall_forall in Hall1, Hall2.
      apply Hanti; [ left; reflexivity | right; exact Hy | apply Hall1; exact Hy
                   | apply Hall2; exact Hx ]. }
    subst y. f_equal.
    apply IH; [ exact Hrest1 | exact Hrest2 | eapply Permutation_cons_inv; exact Hperm | ].
    intros a b Ha Hb. apply Hanti; right; assumption.
Qed.
End StableSortFacts.

Lemma filter_split_perm {A : Type} (f : A -> bool) (l : list A) :
  Permutation (filter f l ++ filter (fun x => negb (f x)) l) l.
Proof.
  induction l as [ | x rest IH ]; cbn; [ constructor | ].
  destruct (f x); cbn.
  - constructor. exact IH.
  - eapply Permutation_trans; [ apply Permutation_sym, Permutation_middle | ].
    constructor. exact IH.
Qed.

Lemma Object_entries_perm (m : TallyMap) : Permutation (Object_entries m) m.
Proof.
  unfold Object_entries.
  eapply Permutation_trans; [ | apply (filter_split_perm isIndexKey) ].
  apply Permutation_app_tail. apply stableSort_perm.
Qed.

Lemma toPoint_behavior (entries : list (string * Tally)) :
  List.map ILinePoint.behavior (List.map toPoint entries) = List.map fst entries.
Proof.
  induction entries as [ | [k t] rest IH ]; cbn; [ reflexivity | ].
  rewrite IH. reflexivity.
Qed.

Lemma seriesOf_perm `{Collator} (m : TallyMap) :
  Permutation (seriesOf m) (List.map toPoint m).
Proof.
  unfold seriesOf.
  eapply Permutation_trans; [ apply stableSort_perm | ].
  apply Permutation_map. apply Object_entries_perm.
Qed.

Lemma seriesOf_keys `{Collator} (m : TallyMap) :
  Permutation (List.map ILinePoint.behavior (seriesOf m)) (List.map fst m).
Proof.
  rewrite <- toPoint_behavior. apply Permutation_map. apply seriesOf_perm.
Qed.

Lemma pointAfter_false `{Collator} (a b : ILinePoint) :
  pointAfter a b = false -> pointLe a b.
Proof.
  unfold pointAfter, pointLe. intros Hlt. apply Z.ltb_ge. exact Hlt.
Qed.

Lemma pointAfter_true (C : Collator) (a b : ILinePoint) :
  consistent C -> pointAfter a b = true -> pointLe b a.
Proof.
  unfold pointAfter, pointLe. intros [Hanti _] Hlt. apply Z.ltb_lt in Hlt.
  pose proof (Hanti (ILinePoint.behavior a) (ILinePoint.behavior b)) as Hs.
  lia.
Qed.

Lemma pointLe_trans (C : Collator) (a b c : ILinePoint) :
  consistent C -> pointLe a b -> pointLe b c -> pointLe a c.
Proof.
  unfold pointLe. intros [_ Htrans]. apply Htrans.
Qed.

Lemma seriesOf_sorted (C : Collator) (m : TallyMap) :
  consistent C -> StronglySorted pointLe (seriesOf m).
Proof.
  intros Hc. unfold seriesOf.
  apply (stableSort_sorted pointAfter pointLe).
  - intros x y. apply pointAfter_false.
  - intros x y. apply pointAfter_true. exact Hc.
  - intros x y z. apply pointLe_trans. exact Hc.
Qed.

Lemma NoDup_map_eq {A B : Type} (f : A -> B) (l : list A) :
  NoDup (List.map f l) ->
  forall a b, In a l -> In b l -> f a = f b -> a = b.
Proof.
  induction l as [ | x rest IH ]; cbn; intros Hnd a b Ha Hb Hf; [ contradiction | ].
  inversion Hnd as [ | y l' Hnotin Hnd' ]; subst.
  destruct Ha as [-> | Ha], Hb as [-> | Hb].
  - reflexivity.
  - exfalso. apply Hnotin. rewrite Hf. apply in_map. exact Hb.
  - exfalso. apply Hnotin. rewrite <- Hf. apply in_map. exact Ha.
  - apply IH; assumption.
Qed.

(** ** The sample collators are consistent *)

Lemma keyCompare_consistent (sortKey : string -> string) :
  consistent {| localeCompare := keyCompare sortKey |}.
Proof.
  split; cbn [localeCompare]; unfold keyCompare.
  - intros a b. rewrite (String.compare_antisym (sortKey b) (sortKey a)).
    destruct (String.compare (sortKey a) (sortKey b)); reflexivity.
  - intros a b c Hab Hbc.
    destruct (String.compare (sortKey a) (sortKey b)) eqn:Eab;
      [ | | cbn in Hab; lia ].
    + apply String_as_OT.cmp_eq in Eab. rewrite Eab. exact Hbc.
    + destruct (String.compare (sortKey b) (sortKey c)) eqn:Ebc;
        [ | | cbn in Hbc; lia ].
      * apply String_as_OT.cmp_eq in Ebc. rewrite <- Ebc, Eab. cbn. lia.
      * apply String_as_OT.cmp_lt in Eab. apply String_as_OT.cmp_lt in Ebc.
        pose proof (String_as_OT.lt_trans _ _ _ Eab Ebc) as Hac.
        apply String_as_OT.cmp_lt in Hac. unfold String_as_OT.cmp in Hac.
        rewrite Hac. cbn. lia.
Qed.

Lemma ordinalCollator_consistent : consistent ordinalCollator.
Proof. apply keyCompare_consistent. Qed.

Lemma canonicalCollator_consistent : consistent canonicalCollator.
Proof. apply keyCompare_consistent. Qed.

(** ** Records and tallies *)

(** The rule of lines 143-158 on a key that [map] can own: the tally of
    the key gains the two deltas, every other tally stays. *)
Lemma verdict_rule (behaviorRaw aiRaw reviewerRaw behavior aiText reviewerText : JsValue)
  (key : string) (m : TallyMap) :
  normalizeText behaviorRaw = Ok behavior -> truthy behavior = true ->
  ToString behavior = Ok key -> inherited key = false ->
  normalizeText aiRaw = Ok aiText -> normalizeText reviewerRaw = Ok reviewerText ->
  exists m',
    tallyRecord behaviorRaw aiRaw reviewerRaw m = Ok m'
    /\ ownTally key m'
       = Some (addTally (match ownTally key m with Some t => t | None => zeroTally end)
                 (addTally (aiDelta aiText) (reviewerDelta reviewerText)))
    /\ (forall k, k <> key -> ownTally k m' = ownTally k m).
Proof.
  intros Hb Htruthy Hkey Hinh Ha Hr.
  rewrite tallyRecord_credit. unfold contribution.
  rewrite Hb. cbn [bindO]. rewrite Htruthy. cbn [negb].
  rewrite Hkey. cbn [bindO]. rewrite Ha, Hr. cbn [bindO].
  eexists. split; [ reflexivity | ].
  split.
  - rewrite ownTally_credit. cbn [stepFor]. rewrite String.eqb_refl, Hinh.
    destruct (ownTally key m); reflexivity.
  - intros k Hne. rewrite ownTally_credit. cbn [stepFor].
    destruct (String.eqb_spec key k) as [He | _]; [ congruence | reflexivity ].
Qed.

Lemma listOutcome_app (h : Host) (bf af rf : string) (l1 l2 : list string) :
  forall m,
    listOutcome h bf af rf (l1 ++ l2) m
    = (m' <- listOutcome h bf af rf l1 m ;; listOutcome h bf af rf l2 m')%outcome.
Proof.
  induction l1 as [ | id rest IH ]; intros m; cbn; [ reflexivity | ].
  destruct (recordOutcome h bf af rf id m) as [m1 | e]; cbn; [ apply IH | reflexivity ].
Qed.

Lemma listOutcome_withRecordIds (h : Host) (bf af rf : string)
  (others ids : list string) :
  forall m,
    listOutcome (withRecordIds others h) bf af rf ids m = listOutcome h bf af rf ids m.
Proof.
  induction ids as [ | id rest IH ]; intros m; cbn [listOutcome]; [ reflexivity | ].
  change (recordOutcome (withRecordIds others h) bf af rf id m)
    with (recordOutcome h bf af rf id m).
  destruct (recordOutcome h bf af rf id m); cbn [bindO]; [ apply IH | reflexivity ].
Qed.

(** C2: a record whose category normalizes to the empty text leaves the map
    as it is, whatever its verdicts are: no tally is created and no counter
    moves, and the run answers what it answers without the record. *)
Theorem empty_category_skips_record `{Collator} (h : Host) (bf af rf id : string)
  (behaviorRaw aiRaw reviewerRaw : JsValue) :
  getValue h bf id = Ok behaviorRaw ->
  getValue h af id = Ok aiRaw ->
  getValue h rf id = Ok reviewerRaw ->
  normalizeText behaviorRaw = Ok (JString "") ->
  (forall m calls, fst (processRecord h bf af rf id m calls) = Ok m)
  /\ (forall before after m calls,
        fst (forEachRecord h bf af rf (before ++ id :: after) m calls)
        = fst (forEachRecord h bf af rf (before ++ after) m calls))
  /\ (forall before after calls,
        fst (aggregation (withRecordIds (before ++ id :: after) h) bf af rf calls)
        = fst (aggregation (withRecordIds (before ++ after) h) bf af rf calls)).
Proof.
  intros Hb Ha Hr Hempty.
  assert (Hskip : forall m, recordOutcome h bf af rf id m = Ok m).
  { intros m. unfold recordOutcome. rewrite Hb, Ha, Hr. cbn [bindO].
    unfold tallyRecord. rewrite Hempty. reflexivity. }
  assert (Hlist : forall before after m,
             listOutcome h bf af rf (before ++ id :: after) m
             = listOutcome h bf af rf (before ++ after) m).
  { intros before after m. rewrite !listOutcome_app.
    destruct (listOutcome h bf af rf before m) as [m1 | e]; cbn [bindO listOutcome];
      [ rewrite Hskip | ]; reflexivity. }
  split; [ | split ].
  - intros m calls. rewrite processRecord_outcome. apply Hskip.
  - intros before after m calls. rewrite !forEachRecord_outcome. apply Hlist.
  - intros before after calls. rewrite !aggregation_outcome.
    cbn [withRecordIds getActiveTable getRecordIdList getField bindO].
    destruct (getActiveTable h); cbn [bindO]; [ | reflexivity ].
    destruct (getField h bf); cbn [bindO]; [ | reflexivity ].
    destruct (getField h af); cbn [bindO]; [ | reflexivity ].
    destruct (getField h rf); cbn [bindO]; [ | reflexivity ].
    rewrite !listOutcome_withRecordIds, Hlist. reflexivity.
Qed.

Lemma empty_category_skips_record_witness :
  (forall m calls,
      fst (processRecord (tableHost blankCategoryRows) "behavior" "ai" "reviewer"
             "rec2" m calls) = Ok m)
  /\ (forall before after m calls,
        fst (forEachRecord (tableHost blankCategoryRows) "behavior" "ai" "reviewer"
               (before ++ "rec2" :: after) m calls)
        = fst (forEachRecord (tableHost blankCategoryRows) "behavior" "ai" "reviewer"
                 (before ++ after) m calls))
  /\ (forall before after calls,
        fst (@aggregation ordinalCollator
               (withRecordIds (before ++ "rec2" :: after) (tableHost blankCategoryRows))
               "behavior" "ai" "reviewer" calls)
        = fst (@aggregation ordinalCollator
                 (withRecordIds (before ++ after) (tableHost blankCategoryRows))
                 "behavior" "ai" "reviewer" calls)).
Proof.
  apply (@empty_category_skips_record ordinalCollator (tableHost blankCategoryRows)
           "behavior" "ai" "reviewer" "rec2"
           (JString "") (JString NORMAL) (JString VIOLATION));
    reflexivity.
Defined.

(** C1 at a category that [Object.prototype] names: [map["constructor"]] is
    the inherited function, so no tally is created and the two increments
    never reach [map]; the same record under the category "A" is tallied as
    the claim says. *)
Theorem constructor_category_gets_no_tally `{Collator} :
  fst (forEachRecord (tableHost constructorRows) "behavior" "ai" "reviewer"
         ["rec1"] [] []) = Ok []
  /\ fst (aggregation (tableHost constructorRows) "behavior" "ai" "reviewer" []) = Ok []
  /\ fst (forEachRecord (tableHost [textRow "rec1" "A" NORMAL VIOLATION])
            "behavior" "ai" "reviewer" ["rec1"] [] [])
     = Ok [("A", mkTally 1 0 0 1)].
Proof.
  repeat split; reflexivity.
Qed.

(** C6 at a category that [Object.prototype] names: the loop sees two
    distinct non-empty categories, "valueOf" and "B", and credits both; the
    series holds the one tuple of "B". *)
Theorem valueOf_category_missing_from_series `{Collator} :
  listCredits (tableHost valueOfRows) "behavior" "ai" "reviewer" ["rec1"; "rec2"]
  = Ok [ Some ("valueOf", mkTally 1 0 0 1); Some ("B", mkTally 1 0 0 1) ]
  /\ lookupSlot "valueOf" [] = InheritedSlot
  /\ fst (aggregation (tableHost valueOfRows) "behavior" "ai" "reviewer" [])
     = Ok [ILinePoint.mk "B" 1 0 0 1].
Proof.
  repeat split; reflexivity.
Qed.

(** What does hold of the series of a run: one tuple per key credited
    that [map] can own, in ascending order of the collator. *)
Lemma series_shape (C : Collator) (cs : list Credit) :
  consistent C ->
  NoDup (List.map ILinePoint.behavior (seriesOf (creditAll cs [])))
  /\ StronglySorted pointLe (seriesOf (creditAll cs []))
  /\ (forall k,
        In k (List.map ILinePoint.behavior (seriesOf (creditAll cs [])))
        <-> observed k cs = true).
Proof.
  intros Hc. split; [ | split ].
  - apply (Permutation_NoDup (l := List.map fst (creditAll cs []))).
    + apply Permutation_sym, seriesOf_keys.
    + apply keys_creditAll. constructor.
  - apply seriesOf_sorted. exact Hc.
  - intros k. split.
    + intros Hin. apply (Permutation_in _ (seriesOf_keys _)) in Hin.
      pose proof (ownTally_observed k cs) as Hown.
      destruct (observed k cs); [ reflexivity | ].
      apply ownTally_None in Hown. contradiction.
    + intros Hobs. apply (Permutation_in _ (Permutation_sym (seriesOf_keys _))).
      pose proof (ownTally_observed k cs) as Hown. rewrite Hobs in Hown.
      destruct (in_dec String.string_dec k (List.map fst (creditAll cs [])))
        as [Hin | Hnotin]; [ exact Hin | ].
      apply ownTally_None in Hnotin. congruence.
Qed.

(** ** The fetch effect *)

Lemma listOutcome_values (h : Host) (bf af rf : string) (ids : list string) :
  forall m m',
    listOutcome h bf af rf ids m = Ok m' ->
    forall id field,
      In id ids -> In field [bf; af; rf] -> exists v, getValue h field id = Ok v.
Proof.
  induction ids as [ | id0 rest IH ]; intros m m' Hok id field Hin Hfield;
    [ contradiction | ].
  cbn [listOutcome] in Hok.
  destruct (recordOutcome h bf af rf id0 m) as [m1 | e] eqn:Hrec;
    cbn [bindO] in Hok; [ | discriminate ].
  destruct Hin as [<- | Hin]; [ | eapply IH; eassumption ].
  unfold recordOutcome in Hrec.
  destruct (getValue h bf id0) as [b | eb] eqn:Hb; cbn [bindO] in Hrec; [ | discriminate ].
  destruct (getValue h af id0) as [a | ea] eqn:Ha; cbn [bindO] in Hrec; [ | discriminate ].
  destruct (getValue h rf id0) as [r | er] eqn:Hr; cbn [bindO] in Hrec; [ | discriminate ].
  destruct Hfield as [<- | [<- | [<- | []]]]; eexists; eassumption.
Qed.

Lemma signalRendered_data (h : Host) (st : State) :
  data (signalRendered h st) = data st /\ loading (signalRendered h st) = loading st.
Proof.
  unfold signalRendered. destruct (hasSetRendered h); split; reflexivity.
Qed.

(** The effect behind an open gate: [setData] on success only, and the
    [finally] block either way. *)
Lemma fetchEffect_open `{Collator} (h : Host) (st : State) :
  gate (config st) = true ->
  fetchEffect false h st =
  let run :=
    aggregation h (asString (behaviorFieldId (config st)))
      (asString (aiFieldId (config st))) (asString (reviewerFieldId (config st))) [] in
  (signalRendered h
     (setLoading false
        match fst run with
        | Ok result => setData result (setLoading true st)
        | Throw _ => setLoading true st
        end),
   snd run).
Proof.
  unfold gate, fetchEffect. intros Hgate.
  apply negb_true_iff in Hgate. rewrite Hgate. cbn zeta.
  destruct (aggregation h _ _ _ []) as [o calls]. reflexivity.
Qed.

(** C4: when a [getValue] call of the run is rejected, the run throws, the
    series on display stays the one it was (nothing of the records tallied
    before the failure is shown) and the effect ends with [loading] off. *)
Theorem rejected_accessor_keeps_series `{Collator} (h : Host) (st : State)
  (ids : list string) (id field : string) (e : JsError) :
  gate (config st) = true ->
  getRecordIdList h = Ok ids ->
  In id ids ->
  In field [ asString (behaviorFieldId (config st));
             asString (aiFieldId (config st));
             asString (reviewerFieldId (config st)) ] ->
  getValue h field id = Throw e ->
  (exists e',
      fst (aggregation h (asString (behaviorFieldId (config st)))
             (asString (aiFieldId (config st)))
             (asString (reviewerFieldId (config st))) []) = Throw e')
  /\ data (fst (fetchEffect false h st)) = data st
  /\ loading (fst (fetchEffect false h st)) = false.
Proof.
  intros Hgate Hids Hin Hfield Hrej.
  assert (Hthrow : exists e',
             fst (aggregation h (asString (behaviorFieldId (config st)))
                    (asString (aiFieldId (config st)))
                    (asString (reviewerFieldId (config st))) []) = Throw e').
  { rewrite aggregation_outcome, Hids.
    destruct (getActiveTable h); cbn [bindO]; [ | eexists; reflexivity ].
    destruct (getField h _); cbn [bindO]; [ | eexists; reflexivity ].
    destruct (getField h _); cbn [bindO]; [ | eexists; reflexivity ].
    destruct (getField h _); cbn [bindO]; [ | eexists; reflexivity ].
    destruct (listOutcome h _ _ _ ids []) as [m' | e'] eqn:Hlist; cbn [bindO];
      [ | eexists; reflexivity ].
    destruct (listOutcome_values _ _ _ _ _ _ _ Hlist id field Hin Hfield) as [v Hv].
    congruence. }
  split; [ exact Hthrow | ].
  destruct Hthrow as [e' He'].
  rewrite fetchEffect_open by exact Hgate. cbn zeta. cbn [fst]. rewrite He'.
  destruct (signalRendered_data h (setLoading false (setLoading true st))) as [Hd Hl].
  rewrite Hd, Hl. split; reflexivity.
Qed.

Lemma rejected_accessor_keeps_series_witness :
  (exists e',
      fst (@aggregation ordinalCollator (rejecting "ai" "rec2" (tableHost scenarioRows))
             "behavior" "ai" "reviewer" []) = Throw e')
  /\ data (fst (@fetchEffect ordinalCollator false
                  (rejecting "ai" "rec2" (tableHost scenarioRows))
                  (mkState fullConfig [ILinePoint.mk "Z" 7 0 7 0] false 0)))
     = [ILinePoint.mk "Z" 7 0 7 0]
  /\ loading (fst (@fetchEffect ordinalCollator false
                     (rejecting "ai" "rec2" (tableHost scenarioRows))
                     (mkState fullConfig [ILinePoint.mk "Z" 7 0 7 0] false 0)))
     = false.
Proof.
  apply (@rejected_accessor_keeps_series ordinalCollator
           (rejecting "ai" "rec2" (tableHost scenarioRows))
           (mkState fullConfig [ILinePoint.mk "Z" 7 0 7 0] false 0)
           ["rec1"; "rec2"; "rec3"] "rec2" "ai" (HostError "rejected")).
  - reflexivity.
  - reflexivity.
  - simpl. right. left. reflexivity.
  - simpl. right. left. reflexivity.
  - reflexivity.
Defined.

(** C3, as stated, fails where a series is on display: the effect returns
    at the gate and what is on display stays, here the series of the
    scenario after the AI column was dropped from the configuration. *)
Lemma closed_gate_returns_no_empty_series :
  gate partialConfig = false
  /\ @afterConfigs ordinalCollator false (tableHost scenarioRows) [fullConfig]
     = mkState fullConfig scenarioSeries false 1
  /\ @fetchEffect ordinalCollator false (tableHost scenarioRows)
       (setConfig partialConfig
          (@afterConfigs ordinalCollator false (tableHost scenarioRows) [fullConfig]))
     = (mkState partialConfig scenarioSeries false 1, []).
Proof.
  repeat split; reflexivity.
Qed.

(** Behind a closed gate the effect is the identity and calls nothing. *)
Lemma fetchEffect_closed `{Collator} (isConfig : bool) (h : Host) (st : State) :
  gate (config st) = false -> fetchEffect isConfig h st = (st, []).
Proof.
  unfold gate, fetchEffect. intros Hgate.
  apply negb_false_iff in Hgate. rewrite Hgate.
  destruct isConfig; reflexivity.
Qed.

(** C3, amended: with one of the three ids unset or empty the effect
    returns at once: it makes no [getValue] call and sets no state, so the
    series on display is the one that was there (empty on the initial
    state). *)
Theorem closed_gate_makes_no_call `{Collator} (isConfig : bool) (h : Host) (st : State) :
  gate (config st) = false ->
  fetchEffect isConfig h st = (st, [])
  /\ snd (fetchEffect isConfig h st) = []
  /\ (data st = [] -> data (fst (fetchEffect isConfig h st)) = []).
Proof.
  intros Hgate. rewrite (fetchEffect_closed isConfig h st Hgate).
  repeat split. intros Hdata. exact Hdata.
Qed.

Lemma closed_gate_makes_no_call_witness :
  @fetchEffect ordinalCollator false (tableHost scenarioRows)
    (mkState partialConfig [] false 0)
  = (mkState partialConfig [] false 0, [])
  /\ snd (@fetchEffect ordinalCollator false (tableHost scenarioRows)
            (mkState partialConfig [] false 0)) = []
  /\ (data (mkState partialConfig [] false 0) = [] ->
      data (fst (@fetchEffect ordinalCollator false (tableHost scenarioRows)
                   (mkState partialConfig [] false 0))) = []).
Proof.
  apply (@closed_gate_makes_no_call ordinalCollator false (tableHost scenarioRows)
           (mkState partialConfig [] false 0)).
  reflexivity.
Defined.





(** ** The order of the records *)

(** C10, as stated, fails on a tie: U+F900 and U+8C48 are two keys of
    [map] that a collator has to compare equal and neither is an array
    index, so [Object.entries] lists them in the order their records came
    and the stable sort leaves them so. *)
Lemma tied_categories_follow_record_order :
  cjkCompatibility <> cjkUnified
  /\ @localeCompare canonicalCollator cjkCompatibility cjkUnified = 0%Z
  /\ fst (@aggregation canonicalCollator
            (withRecordIds ["rec1"; "rec2"] (tableHost tiedRows))
            "behavior" "ai" "reviewer" [])
     = Ok [ ILinePoint.mk cjkCompatibility 1 0 0 1; ILinePoint.mk cjkUnified 0 1 1 0 ]
  /\ fst (@aggregation canonicalCollator
            (withRecordIds ["rec2"; "rec1"] (tableHost tiedRows))
            "behavior" "ai" "reviewer" [])
     = Ok [ ILinePoint.mk cjkUnified 0 1 1 0; ILinePoint.mk cjkCompatibility 1 0 0 1 ].
Proof.
  repeat split; try reflexivity.
  intros Heq. discriminate Heq.
Qed.

(** A run that succeeds: the same tuples after a permutation of the ids,
    in the same order when the series has no tie. *)
Lemma aggregation_permutation_ok (C : Collator) (h : Host) (bf af rf : string)
  (ids ids' : list string) (series : list ILinePoint) :
  consistent C ->
  Permutation ids ids' ->
  fst (aggregation (withRecordIds ids h) bf af rf []) = Ok series ->
  exists series',
    fst (aggregation (withRecordIds ids' h) bf af rf []) = Ok series'
    /\ Permutation series series'
    /\ (tieFree series -> series' = series).
Proof.
  intros Hc Hperm Hrun.
  rewrite aggregation_outcome in Hrun. rewrite aggregation_outcome.
  cbn [withRecordIds getActiveTable getRecordIdList getField bindO] in *.
  destruct (getActiveTable h); cbn [bindO] in *; [ | discriminate ].
  destruct (getField h bf); cbn [bindO] in *; [ | discriminate ].
  destruct (getField h af); cbn [bindO] in *; [ | discriminate ].
  destruct (getField h rf); cbn [bindO] in *; [ | discriminate ].
  rewrite listOutcome_withRecordIds, listOutcome_credits in Hrun.
  rewrite listOutcome_withRecordIds, listOutcome_credits.
  destruct (listCredits h bf af rf ids) as [cs | e] eqn:Hcs; cbn [bindO] in Hrun;
    [ | discriminate ].
  destruct (listCredits_perm h bf af rf ids ids' Hperm cs Hcs) as [cs' [Hcs' Hpcs]].
  rewrite Hcs'. cbn [bindO].
  injection Hrun as Hseries. subst series.
  exists (seriesOf (creditAll cs' [])).
  assert (Hp : Permutation (seriesOf (creditAll cs [])) (seriesOf (creditAll cs' []))).
  { eapply Permutation_trans; [ apply seriesOf_perm | ].
    eapply Permutation_trans; [ | apply Permutation_sym, seriesOf_perm ].
    apply Permutation_map. apply creditAll_perm. exact Hpcs. }
  split; [ reflexivity | ]. split; [ exact Hp | ].
  intros Hties. symmetry.
  apply (sorted_perm_unique pointLe);
    [ apply seriesOf_sorted; exact Hc | apply seriesOf_sorted; exact Hc | exact Hp | ].
  intros p1 p2 Hin1 Hin2 Hle12 Hle21.
  destruct (series_shape C cs Hc) as [Hnd _].
  apply (NoDup_map_eq ILinePoint.behavior _ Hnd); [ exact Hin1 | exact Hin2 | ].
  apply Hties; [ exact Hin1 | exact Hin2 | ].
  destruct Hc as [Hanti _]. unfold pointLe in Hle12, Hle21.
  pose proof (Hanti (ILinePoint.behavior p1) (ILinePoint.behavior p2)) as Hs.
  lia.
Qed.


(** C10, amended: for a fixed assignment of values, a run over a
    permutation of the record ids succeeds when the run over the list does
    and answers the same tuples with the same counters; the order of the
    tuples is the same as well when no two categories of the series tie
    under the collator.  A run that throws throws for every order of the
    records. *)
Theorem aggregation_permutation (C : Collator) (h : Host) (bf af rf : string)
  (ids ids' : list string) :
  consistent C ->
  Permutation ids ids' ->
  match fst (aggregation (withRecordIds ids h) bf af rf []) with
  | Ok series =>
      exists series',
        fst (aggregation (withRecordIds ids' h) bf af rf []) = Ok series'
        /\ Permutation series series'
        /\ (tieFree series -> series' = series)
  | Throw _ =>
      exists e', fst (aggregation (withRecordIds ids' h) bf af rf []) = Throw e'
  end.
Proof.
  intros Hc Hperm.
  destruct (fst (aggregation (withRecordIds ids h) bf af rf [])) as [series | e] eqn:Hrun.
  - exact (aggregation_permutation_ok C h bf af rf ids ids' series Hc Hperm Hrun).
  - destruct (fst (aggregation (withRecordIds ids' h) bf af rf []))
      as [series' | e'] eqn:Hrun'; [ | exists e'; reflexivity ].
    destruct (aggregation_permutation_ok C h bf af rf ids' ids series' Hc
                (Permutation_sym Hperm) Hrun') as [series [Hok _]].
    congruence.
Qed.

Lemma scenario_tieFree : @tieFree ordinalCollator scenarioSeries.
Proof.
  intros a b Ha Hb Hcmp.
  cbn [localeCompare ordinalCollator] in Hcmp. unfold keyCompare in Hcmp.
  destruct (String.compare (ILinePoint.behavior a) (ILinePoint.behavior b)) eqn:Ec;
    [ | discriminate Hcmp | discriminate Hcmp ].
  apply String.compare_eq_iff. exact Ec.
Qed.

Lemma aggregation_permutation_witness :
  exists series',
    fst (@aggregation ordinalCollator
           (withRecordIds ["rec3"; "rec1"; "rec2"] (tableHost scenarioRows))
           "behavior" "ai" "reviewer" []) = Ok series'
    /\ Permutation scenarioSeries series'
    /\ (@tieFree ordinalCollator scenarioSeries -> series' = scenarioSeries).
Proof.
  exact (aggregation_permutation ordinalCollator (tableHost scenarioRows)
           "behavior" "ai" "reviewer" ["rec1"; "rec2"; "rec3"] ["rec3"; "rec1"; "rec2"]
           ordinalCollator_consistent
           (Permutation_sym (Permutation_cons_append ["rec1"; "rec2"] "rec3"))).
Defined.

(** * Further properties of the code *)

(** ** What a successful run is made of *)

Lemma listCredits_length (h : Host) (bf af rf : string) (ids : list string) :
  forall cs, listCredits h bf af rf ids = Ok cs -> List.length cs = List.length ids.
Proof.
  induction ids as [ | id rest IH ]; intros cs Hcs; cbn in Hcs.
  - injection Hcs as <-. reflexivity.
  - destruct (recordCredit h bf af rf id) as [c | e]; cbn in Hcs; [ | discriminate ].
    destruct (listCredits h bf af rf rest) as [cs0 | e]; cbn in Hcs; [ | discriminate ].
    injection Hcs as <-. cbn. rewrite (IH cs0 eq_refl). reflexivity.
Qed.

Lemma listCredits_succeeds (h : Host) (bf af rf : string) (ids : list string) :
  succeeds (listCredits h bf af rf ids)
  <-> Forall (fun id => succeeds (recordCredit h bf af rf id)) ids.
Proof.
  induction ids as [ | id rest IH ]; cbn [listCredits].
  - split; [ constructor | intros _; eexists; reflexivity ].
  - split.
    + intros [cs Hcs].
      destruct (recordCredit h bf af rf id) as [c | e] eqn:Hc; cbn [bindO] in Hcs;
        [ | discriminate ].
      destruct (listCredits h bf af rf rest) as [cs0 | e]; cbn [bindO] in Hcs;
        [ | discriminate ].
      constructor; [ exists c; exact Hc | ].
      apply IH. eexists; reflexivity.
    + intros Hall. inversion Hall as [ | x l [c Hc] Hrest ]; subst.
      apply IH in Hrest. destruct Hrest as [cs0 Hcs0].
      rewrite Hc, Hcs0. eexists; reflexivity.
Qed.

(** A run that returns a series has read the id list, turned every record
    into a credit and sorted the map the credits build. *)
Lemma aggregation_succeeds `{Collator} (h : Host) (bf af rf : string)
  (calls : list Call) (series : list ILinePoint) :
  fst (aggregation h bf af rf calls) = Ok series ->
  exists ids cs,
    getRecordIdList h = Ok ids
    /\ listCredits h bf af rf ids = Ok cs
    /\ series = seriesOf (creditAll cs []).
Proof.
  rewrite aggregation_outcome. intros Hrun.
  destruct (getActiveTable h); cbn [bindO] in Hrun; [ | discriminate ].
  destruct (getRecordIdList h) as [ids | e]; cbn [bindO] in Hrun; [ | discriminate ].
  destruct (getField h bf); cbn [bindO] in Hrun; [ | discriminate ].
  destruct (getField h af); cbn [bindO] in Hrun; [ | discriminate ].
  destruct (getField h rf); cbn [bindO] in Hrun; [ | discriminate ].
  rewrite listOutcome_credits in Hrun.
  destruct (listCredits h bf af rf ids) as [cs | e] eqn:Hcs; cbn [bindO] in Hrun;
    [ | discriminate ].
  injection Hrun as <-.
  exists ids, cs. split; [ reflexivity | split; [ exact Hcs | reflexivity ] ].
Qed.

(** X1: the series of a run that succeeds has no category twice, ascends
    under the collator, and holds a category exactly when some record
    credited it and [map] can own it; without such a record it is empty. *)
Theorem run_series_shape (C : Collator) (h : Host) (bf af rf : string)
  (ids : list string) (cs : list Credit) (series : list ILinePoint) :
  consistent C ->
  getRecordIdList h = Ok ids ->
  listCredits h bf af rf ids = Ok cs ->
  fst (aggregation h bf af rf []) = Ok series ->
  NoDup (List.map ILinePoint.behavior series)
  /\ StronglySorted pointLe series
  /\ (forall k, In k (List.map ILinePoint.behavior series) <-> observed k cs = true)
  /\ ((forall k, observed k cs = false) -> series = []).
Proof.
  intros Hc Hids Hcs Hrun.
  destruct (aggregation_succeeds h bf af rf [] series Hrun) as [ids' [cs' [Hids' [Hcs' ->]]]].
  assert (ids' = ids) by congruence. subst ids'.
  assert (cs' = cs) by congruence. subst cs'.
  destruct (series_shape C cs Hc) as [Hnd [Hsorted Hmem]].
  repeat split; try assumption; try apply Hmem.
  intros Hnone.
  destruct (seriesOf (creditAll cs [])) as [ | p rest ] eqn:Hs; [ reflexivity | ].
  assert (Hin : In (ILinePoint.behavior p) (List.map ILinePoint.behavior (p :: rest)))
    by (left; reflexivity).
  apply Hmem in Hin. rewrite Hnone in Hin. discriminate Hin.
Qed.

Lemma run_series_shape_witness :
  NoDup (List.map ILinePoint.behavior scenarioSeries)
  /\ StronglySorted (@pointLe ordinalCollator) scenarioSeries
  /\ (forall k,
        In k (List.map ILinePoint.behavior scenarioSeries)
        <-> observed k [ Some ("A", mkTally 1 0 1 0); Some ("A", mkTally 0 1 1 0);
                         Some ("B", mkTally 1 0 0 1) ] = true)
  /\ ((forall k,
          observed k [ Some ("A", mkTally 1 0 1 0); Some ("A", mkTally 0 1 1 0);
                       Some ("B", mkTally 1 0 0 1) ] = false) ->
      scenarioSeries = []).
Proof.
  apply (run_series_shape ordinalCollator (tableHost scenarioRows)
           "behavior" "ai" "reviewer" ["rec1"; "rec2"; "rec3"]).
  - exact ordinalCollator_consistent.
  - reflexivity.
  - reflexivity.
  - reflexivity.
Defined.

Lemma pointTally_toPoint (entry : string * Tally) :
  pointTally (toPoint entry) = snd entry /\ ILinePoint.behavior (toPoint entry) = fst entry.
Proof.
  destruct entry as [k [n1 n2 n3 n4]]. split; reflexivity.
Qed.

(** X2: in the series of a run that succeeds, the four counters of a
    category are the sums of what the records of the list credited to it. *)
Theorem run_series_counts `{Collator} (h : Host) (bf af rf : string)
  (ids : list string) (cs : list Credit) (series : list ILinePoint) (p : ILinePoint) :
  getRecordIdList h = Ok ids ->
  listCredits h bf af rf ids = Ok cs ->
  fst (aggregation h bf af rf []) = Ok series ->
  In p series ->
  pointTally p = sumFor (ILinePoint.behavior p) cs.
Proof.
  intros Hids Hcs Hrun Hin.
  destruct (aggregation_succeeds h bf af rf [] series Hrun) as [ids' [cs' [Hids' [Hcs' ->]]]].
  assert (ids' = ids) by congruence. subst ids'.
  assert (cs' = cs) by congruence. subst cs'.
  apply (Permutation_in _ (seriesOf_perm _)) in Hin.
  apply in_map_iff in Hin. destruct Hin as [[k t] [<- Hentry]].
  destruct (pointTally_toPoint (k, t)) as [-> ->]. cbn [fst snd].
  apply ownTally_In in Hentry; [ | apply keys_creditAll; constructor ].
  rewrite ownTally_observed in Hentry.
  destruct (observed k cs); [ | discriminate ].
  congruence.
Qed.

Lemma run_series_counts_witness :
  pointTally (ILinePoint.mk "A" 1 1 2 0)
  = sumFor "A" [ Some ("A", mkTally 1 0 1 0); Some ("A", mkTally 0 1 1 0);
                 Some ("B", mkTally 1 0 0 1) ].
Proof.
  apply (@run_series_counts ordinalCollator (tableHost scenarioRows)
           "behavior" "ai" "reviewer" ["rec1"; "rec2"; "rec3"]
           [ Some ("A", mkTally 1 0 1 0); Some ("A", mkTally 0 1 1 0);
             Some ("B", mkTally 1 0 0 1) ]
           scenarioSeries (ILinePoint.mk "A" 1 1 2 0)).
  - reflexivity.
  - reflexivity.
  - reflexivity.
  - simpl. left. reflexivity.
Defined.

(** X3: a run returns a series exactly when the table, the id list and the
    three fields resolve and every record of the list, taken alone, can be
    fetched and normalized: one record that cannot fails the run, wherever
    it stands and whatever the other records hold. *)
Theorem run_succeeds_iff `{Collator} (h : Host) (bf af rf : string) :
  succeeds (fst (aggregation h bf af rf []))
  <-> (succeeds (getActiveTable h)
       /\ succeeds (getField h bf) /\ succeeds (getField h af)
       /\ succeeds (getField h rf)
       /\ exists ids,
            getRecordIdList h = Ok ids
            /\ Forall (fun id => succeeds (recordCredit h bf af rf id)) ids).
Proof.
  rewrite aggregation_outcome. split.
  - intros [series Hrun].
    destruct (getActiveTable h); cbn [bindO] in Hrun; [ | discriminate ].
    destruct (getRecordIdList h) as [ids | e]; cbn [bindO] in Hrun; [ | discriminate ].
    destruct (getField h bf); cbn [bindO] in Hrun; [ | discriminate ].
    destruct (getField h af); cbn [bindO] in Hrun; [ | discriminate ].
    destruct (getField h rf); cbn [bindO] in Hrun; [ | discriminate ].
    rewrite listOutcome_credits in Hrun.
    destruct (listCredits h bf af rf ids) as [cs | e] eqn:Hcs; cbn [bindO] in Hrun;
      [ | discriminate ].
    repeat split; try (eexists; reflexivity).
    exists ids. split; [ reflexivity | ].
    apply listCredits_succeeds. exists cs. exact Hcs.
  - intros [[u Hu] [[ub Hb] [[ua Ha] [[ur Hr] [ids [Hids Hall]]]]]].
    apply listCredits_succeeds in Hall. destruct Hall as [cs Hcs].
    rewrite Hu, Hids, Hb, Ha, Hr. cbn [bindO].
    rewrite listOutcome_credits, Hcs. cbn [bindO]. eexists; reflexivity.
Qed.

(** ** The calls of a run *)

Lemma processRecord_calls (h : Host) (bf af rf id : string) (m : TallyMap)
  (calls : list Call) :
  exists rest,
    (calls ++ [(bf, id); (af, id); (rf, id)])%list
    = (snd (processRecord h bf af rf id m calls) ++ rest)%list
    /\ (succeeds (fst (processRecord h bf af rf id m calls)) -> rest = []).
Proof.
  unfold processRecord, bindA, awaitValue, liftO.
  destruct (getValue h bf id); cbn [fst snd].
  - destruct (getValue h af id); cbn [fst snd].
    + destruct (getValue h rf id); cbn [fst snd].
      * exists []. rewrite <- !app_assoc, app_nil_r. split; auto.
      * exists []. rewrite <- !app_assoc, app_nil_r. split; auto.
    + exists [(rf, id)]. rewrite <- !app_assoc. split; [ reflexivity | ].
      intros [x Hx]. discriminate Hx.
  - exists [(af, id); (rf, id)]. rewrite <- !app_assoc. split; [ reflexivity | ].
    intros [x Hx]. discriminate Hx.
Qed.

Lemma forEachRecord_calls (h : Host) (bf af rf : string) (ids : list string) :
  forall m calls,
  exists rest,
    (calls ++ expectedCalls bf af rf ids)%list
    = (snd (forEachRecord h bf af rf ids m calls) ++ rest)%list
    /\ (succeeds (fst (forEachRecord h bf af rf ids m calls)) -> rest = []).
Proof.
  induction ids as [ | id others IH ]; intros m calls.
  - exists []. cbn. split; auto.
  - change (expectedCalls bf af rf (id :: others))
      with ([(bf, id); (af, id); (rf, id)] ++ expectedCalls bf af rf others)%list.
    cbn [forEachRecord]. unfold bindA.
    destruct (processRecord_calls h bf af rf id m calls) as [rest1 [Hlog1 Hfull1]].
    destruct (processRecord h bf af rf id m calls) as [[m1 | e] calls1]; cbn [fst snd] in *.
    + rewrite (Hfull1 (ex_intro _ m1 eq_refl)), app_nil_r in Hlog1.
      destruct (IH m1 calls1) as [rest [Hlog Hfull]].
      exists rest. split; [ | exact Hfull ].
      subst calls1. rewrite app_assoc. exact Hlog.
    + exists (rest1 ++ expectedCalls bf af rf others)%list.
      split; [ | intros [x Hx]; discriminate Hx ].
      rewrite app_assoc, (app_assoc calls1).
      exact (f_equal (fun l => (l ++ expectedCalls bf af rf others)%list) Hlog1).
Qed.

(** X4: the [getValue] calls of a run are a prefix of three calls per
    record (category, AI verdict, reviewer verdict) in the order of the id
    list, and all of them when the run returns a series: no call for another
    column or record, none skipped, none repeated. *)
Theorem run_calls_in_order `{Collator} (h : Host) (bf af rf : string)
  (ids : list string) :
  getRecordIdList h = Ok ids ->
  exists rest,
    expectedCalls bf af rf ids = (snd (aggregation h bf af rf []) ++ rest)%list
    /\ (succeeds (fst (aggregation h bf af rf [])) -> rest = []).
Proof.
  intros Hids. unfold aggregation, bindA, liftO, retA. rewrite Hids.
  assert (Hfail : forall e : JsError,
             exists rest,
               expectedCalls bf af rf ids = (@nil Call ++ rest)%list
               /\ (succeeds (@Throw (list ILinePoint) e) -> rest = [])).
  { intros e. exists (expectedCalls bf af rf ids).
    split; [ reflexivity | intros [x Hx]; discriminate Hx ]. }
  destruct (getActiveTable h); cbn [fst snd]; [ | apply Hfail ].
  destruct (getField h bf); cbn [fst snd]; [ | apply Hfail ].
  destruct (getField h af); cbn [fst snd]; [ | apply Hfail ].
  destruct (getField h rf); cbn [fst snd]; [ | apply Hfail ].
  destruct (forEachRecord_calls h bf af rf ids [] []) as [rest [Hlog Hfull]].
  destruct (forEachRecord h bf af rf ids [] []) as [[m | e] calls]; cbn [fst snd] in *.
  - exists rest. split; [ exact Hlog | ].
    intros _. apply Hfull. eexists; reflexivity.
  - exists rest. split; [ exact Hlog | intros [x Hx]; discriminate Hx ].
Qed.

Lemma run_calls_in_order_witness :
  exists rest,
    expectedCalls "behavior" "ai" "reviewer" ["rec1"; "rec2"; "rec3"]
    = (snd (@aggregation ordinalCollator (rejecting "ai" "rec2" (tableHost scenarioRows))
              "behavior" "ai" "reviewer" []) ++ rest)%list
    /\ (succeeds (fst (@aggregation ordinalCollator
                         (rejecting "ai" "rec2" (tableHost scenarioRows))
                         "behavior" "ai" "reviewer" [])) ->
        rest = []).
Proof.
  apply (@run_calls_in_order ordinalCollator (rejecting "ai" "rec2" (tableHost scenarioRows))
           "behavior" "ai" "reviewer" ["rec1"; "rec2"; "rec3"]).
  reflexivity.
Defined.

(** ** Counters and records *)

Lemma contribution_unit (behaviorRaw aiRaw reviewerRaw : JsValue) (key : string)
  (d : Tally) :
  contribution behaviorRaw aiRaw reviewerRaw = Ok (Some (key, d)) ->
  aiCount d <= 1 /\ reviewerCount d <= 1.
Proof.
  unfold contribution. intros Hc.
  destruct (normalizeText behaviorRaw) as [behavior | e]; cbn [bindO] in Hc; [ | discriminate ].
  destruct (truthy behavior); cbn [negb] in Hc; [ | discriminate ].
  destruct (ToString behavior) as [k | e]; cbn [bindO] in Hc; [ | discriminate ].
  destruct (normalizeText aiRaw) as [aiText | e]; cbn [bindO] in Hc; [ | discriminate ].
  destruct (normalizeText reviewerRaw) as [reviewerText | e]; cbn [bindO] in Hc;
    [ | discriminate ].
  injection Hc as _ <-.
  unfold aiDelta, reviewerDelta, aiCount, reviewerCount.
  destruct (strictEq aiText NORMAL), (strictEq aiText VIOLATION),
    (strictEq reviewerText NORMAL), (strictEq reviewerText VIOLATION); cbn; lia.
Qed.

Lemma listCredits_unit (h : Host) (bf af rf : string) (ids : list string) :
  forall cs, listCredits h bf af rf ids = Ok cs -> Forall unitCredit cs.
Proof.
  induction ids as [ | id rest IH ]; intros cs Hcs; cbn [listCredits] in Hcs.
  - injection Hcs as <-. constructor.
  - destruct (recordCredit h bf af rf id) as [c | e] eqn:Hc; cbn [bindO] in Hcs;
      [ | discriminate ].
    destruct (listCredits h bf af rf rest) as [cs0 | e]; cbn [bindO] in Hcs;
      [ | discriminate ].
    injection Hcs as <-. constructor; [ | apply IH; reflexivity ].
    destruct c as [[key d] | ]; [ | exact I ].
    unfold recordCredit in Hc.
    destruct (getValue h bf id); cbn [bindO] in Hc; [ | discriminate ].
    destruct (getValue h af id); cbn [bindO] in Hc; [ | discriminate ].
    destruct (getValue h rf id); cbn [bindO] in Hc; [ | discriminate ].
    eapply contribution_unit. exact Hc.
Qed.

Section Weights.
(** A count of verdicts: additive over [addTally]. *)
Variable weight : Tally -> nat.
Hypothesis weight_add : forall a b, weight (addTally a b) = weight a + weight b.
Hypothesis weight_zero : weight zeroTally = 0.

Lemma mapWeight_updateOwn (key : string) (d : Tally) (m : TallyMap) :
  mapWeight weight (updateOwn key (fun t => addTally t d) m) <= mapWeight weight m + weight d.
Proof.
  unfold mapWeight, list_sum.
  induction m as [ | [k t] rest IH ]; cbn [updateOwn List.map fold_right snd]; [ lia | ].
  destruct (String.eqb k key); cbn [List.map fold_right snd];
    [ rewrite weight_add | ]; lia.
Qed.

Lemma mapWeight_credit (c : Credit) (m : TallyMap) :
  mapWeight weight (credit c m)
  <= mapWeight weight m + match c with Some (_, d) => weight d | None => 0 end.
Proof.
  destruct c as [[key d] | ]; cbn [credit]; [ | lia ].
  eapply Nat.le_trans; [ apply mapWeight_updateOwn | ].
  apply Nat.add_le_mono_r.
  destruct (slotMissing (lookupSlot key m)); [ | lia ].
  unfold mapWeight. rewrite List.map_app, list_sum_app. cbn. rewrite weight_zero. lia.
Qed.

Lemma mapWeight_creditAll (cs : list Credit) :
  (Forall (fun c => match c with Some (_, d) => weight d <= 1 | None => True end) cs) ->
  forall m, mapWeight weight (creditAll cs m) <= mapWeight weight m + List.length cs.
Proof.
  unfold creditAll.
  induction 1 as [ | c rest Hc _ IH ]; intros m; cbn [fold_left List.length]; [ lia | ].
  eapply Nat.le_trans; [ apply IH | ].
  pose proof (mapWeight_credit c m) as Hstep.
  destruct c as [[key d] | ]; lia.
Qed.

Lemma seriesWeight `{Collator} (m : TallyMap) :
  list_sum (List.map (fun p => weight (pointTally p)) (seriesOf m)) = mapWeight weight m.
Proof.
  unfold mapWeight.
  rewrite (Permutation_list_sum
             (Permutation_map (fun p => weight (pointTally p)) (seriesOf_perm m))).
  rewrite List.map_map. f_equal. apply List.map_ext.
  intros entry. destruct (pointTally_toPoint entry) as [-> _]. reflexivity.
Qed.
End Weights.

(** X5: over the whole series of a run that succeeds, the AI counters add
    up to at most the number of records, and so do the reviewer counters:
    a record counts at most once on each side. *)
Theorem run_counts_bounded `{Collator} (h : Host) (bf af rf : string)
  (ids : list string) (series : list ILinePoint) :
  getRecordIdList h = Ok ids ->
  fst (aggregation h bf af rf []) = Ok series ->
  aiTotal series <= List.length ids /\ reviewerTotal series <= List.length ids.
Proof.
  intros Hids Hrun.
  destruct (aggregation_succeeds h bf af rf [] series Hrun) as [ids' [cs [Hids' [Hcs ->]]]].
  assert (ids' = ids) by congruence. subst ids'.
  pose proof (listCredits_unit h bf af rf ids cs Hcs) as Hunit.
  rewrite <- (listCredits_length h bf af rf ids cs Hcs).
  unfold aiTotal, reviewerTotal. split.
  - rewrite (seriesWeight aiCount).
    apply (mapWeight_creditAll aiCount); [ intros a b; unfold aiCount; cbn; lia | reflexivity | ].
    eapply Forall_impl; [ | exact Hunit ].
    intros [[key d] | ]; cbn; [ tauto | trivial ].
  - rewrite (seriesWeight reviewerCount).
    apply (mapWeight_creditAll reviewerCount);
      [ intros a b; unfold reviewerCount; cbn; lia | reflexivity | ].
    eapply Forall_impl; [ | exact Hunit ].
    intros [[key d] | ]; cbn; [ tauto | trivial ].
Qed.

Lemma run_counts_bounded_witness :
  aiTotal scenarioSeries <= List.length ["rec1"; "rec2"; "rec3"]
  /\ reviewerTotal scenarioSeries <= List.length ["rec1"; "rec2"; "rec3"].
Proof.
  apply (@run_counts_bounded ordinalCollator (tableHost scenarioRows)
           "behavior" "ai" "reviewer" ["rec1"; "rec2"; "rec3"] scenarioSeries);
    reflexivity.
Defined.

Lemma keys_credit_order (key : string) (d : Tally) (m : TallyMap) :
  inherited key = false ->
  List.map fst (credit (Some (key, d)) m)
  = (List.map fst m
     ++ match ownTally key m with Some _ => [] | None => [key] end)%list.
Proof.
  intros Hinh. unfold credit, lookupSlot. rewrite keys_updateOwn.
  destruct (ownTally key m); cbn [slotMissing].
  - rewrite app_nil_r. reflexivity.
  - rewrite Hinh. cbn [slotMissing]. rewrite List.map_app. reflexivity.
Qed.

(** X6: for a record whose category is truthy and whose key is no name of
    [Object.prototype], the loop body adds the record's AI delta and
    reviewer delta to the tally of that key, taken as zeros when the key is
    new, leaves every other tally as it is, and keeps the keys in their
    order of creation with a new key at the end. *)
Theorem ownable_category_tallied (h : Host) (bf af rf id : string) (m : TallyMap)
  (calls : list Call)
  (behaviorRaw aiRaw reviewerRaw behavior aiText reviewerText : JsValue) (key : string) :
  getValue h bf id = Ok behaviorRaw ->
  getValue h af id = Ok aiRaw ->
  getValue h rf id = Ok reviewerRaw ->
  normalizeText behaviorRaw = Ok behavior ->
  truthy behavior = true ->
  ToString behavior = Ok key ->
  inherited key = false ->
  normalizeText aiRaw = Ok aiText ->
  normalizeText reviewerRaw = Ok reviewerText ->
  exists m',
    fst (processRecord h bf af rf id m calls) = Ok m'
    /\ ownTally key m'
       = Some (addTally (match ownTally key m with Some t => t | None => zeroTally end)
                 (addTally (aiDelta aiText) (reviewerDelta reviewerText)))
    /\ (forall k, k <> key -> ownTally k m' = ownTally k m)
    /\ List.map fst m'
       = (List.map fst m
          ++ match ownTally key m with Some _ => [] | None => [key] end)%list.
Proof.
  intros Hb Ha Hr Hnb Htruthy Hkey Hinh Hna Hnr.
  destruct (verdict_rule behaviorRaw aiRaw reviewerRaw behavior aiText reviewerText
              key m Hnb Htruthy Hkey Hinh Hna Hnr) as [m' [Hrec [Hown Hframe]]].
  exists m'. rewrite processRecord_outcome. unfold recordOutcome.
  rewrite Hb, Ha, Hr. cbn [bindO].
  repeat split; try assumption.
  rewrite tallyRecord_credit in Hrec. unfold contribution in Hrec.
  rewrite Hnb in Hrec. cbn [bindO] in Hrec. rewrite Htruthy in Hrec. cbn [negb] in Hrec.
  rewrite Hkey, Hna, Hnr in Hrec. cbn [bindO] in Hrec.
  injection Hrec as <-. apply keys_credit_order. exact Hinh.
Qed.

Lemma ownable_category_tallied_witness :
  exists m',
    fst (processRecord (tableHost scenarioRows) "behavior" "ai" "reviewer" "rec2"
           [("A", mkTally 1 0 1 0)] []) = Ok m'
    /\ ownTally "A" m'
       = Some (addTally
                 (match ownTally "A" [("A", mkTally 1 0 1 0)] with
                  | Some t => t
                  | None => zeroTally
                  end)
                 (addTally (aiDelta (JString VIOLATION)) (reviewerDelta (JString NORMAL))))
    /\ (forall k, k <> "A" -> ownTally k m' = ownTally k [("A", mkTally 1 0 1 0)])
    /\ List.map fst m'
       = (List.map fst [("A", mkTally 1 0 1 0)]
          ++ match ownTally "A" [("A", mkTally 1 0 1 0)] with
             | Some _ => []
             | None => ["A"]
             end)%list.
Proof.
  apply (ownable_category_tallied (tableHost scenarioRows) "behavior" "ai" "reviewer"
           "rec2" [("A", mkTally 1 0 1 0)] []
           (JString "A") (JString VIOLATION) (JString NORMAL)
           (JString "A") (JString VIOLATION) (JString NORMAL) "A");
    reflexivity.
Defined.

(** X7: a record is dropped whenever its normalized category is falsy, not
    only when it is the empty text: a tag whose [text] is [null], [false],
    [0] or [NaN] drops the record as well. The three values have been
    fetched by then, and the map is left as it was. *)
Theorem falsy_category_skipped (h : Host) (bf af rf id : string) (m : TallyMap)
  (calls : list Call) (behaviorRaw aiRaw reviewerRaw behavior : JsValue) :
  getValue h bf id = Ok behaviorRaw ->
  getValue h af id = Ok aiRaw ->
  getValue h rf id = Ok reviewerRaw ->
  normalizeText behaviorRaw = Ok behavior ->
  truthy behavior = false ->
  processRecord h bf af rf id m calls
  = (Ok m, (calls ++ [(bf, id); (af, id); (rf, id)])%list).
Proof.
  intros Hb Ha Hr Hnb Hfalsy.
  unfold processRecord, bindA, awaitValue, liftO.
  rewrite Hb, Ha, Hr. unfold tallyRecord. rewrite Hnb. cbn [bindO].
  rewrite Hfalsy. cbn [negb]. rewrite <- !app_assoc. reflexivity.
Qed.

Lemma falsy_category_skipped_witness :
  processRecord (tableHost falsyCategoryRows) "behavior" "ai" "reviewer" "rec1"
    [("A", mkTally 1 0 1 0)] []
  = (Ok [("A", mkTally 1 0 1 0)],
     ([] ++ [("behavior", "rec1"); ("ai", "rec1"); ("reviewer", "rec1")])%list).
Proof.
  apply (falsy_category_skipped (tableHost falsyCategoryRows) "behavior" "ai" "reviewer"
           "rec1" [("A", mkTally 1 0 1 0)] []
           (JObject [("id", JString "opt1"); ("text", JNumber "0")])
           (JString NORMAL) (JString VIOLATION) (JNumber "0"));
    reflexivity.
Defined.

(** ** States the component reaches *)

Lemma setConfig_settled `{Collator} (c : IChartConfig) (st : State) :
  settled st -> settled (setConfig c st) /\ rendered (setConfig c st) = rendered st.
Proof.
  intros Hst. split; [ exact Hst | reflexivity ].
Qed.

Lemma fetchEffect_settled (C : Collator) (isConfig : bool) (h : Host) (st : State) :
  consistent C ->
  settled st ->
  settled (fst (fetchEffect isConfig h st))
  /\ rendered (fst (fetchEffect isConfig h st)) <= rendered st + 1.
Proof.
  intros Hc Hst.
  destruct isConfig; [ split; [ exact Hst | cbn; lia ] | ].
  destruct (gate (config st)) eqn:Hgate.
  - rewrite fetchEffect_open by exact Hgate. cbn zeta. cbn [fst].
    unfold settled, signalRendered.
    destruct (fst (aggregation h _ _ _ [])) as [series | e] eqn:Hrun.
    + destruct (aggregation_succeeds h _ _ _ [] series Hrun) as [ids [cs [_ [_ ->]]]].
      destruct (series_shape C cs Hc) as [Hnd [Hsorted _]].
      destruct (hasSetRendered h); cbn; repeat split; try assumption; lia.
    + destruct Hst as [_ [Hnd Hsorted]].
      destruct (hasSetRendered h); cbn; repeat split; try assumption; lia.
  - rewrite (fetchEffect_closed false h st Hgate). split; [ exact Hst | cbn; lia ].
Qed.

Lemma configArrives_settled (C : Collator) (isConfig : bool) (h : Host) (st : State)
  (c : IChartConfig) :
  consistent C ->
  settled st ->
  settled (configArrives isConfig h st c)
  /\ rendered (configArrives isConfig h st c) <= rendered st + 1.
Proof.
  intros Hc Hst. unfold configArrives.
  destruct (sameDeps (config st) c).
  - split; [ exact Hst | cbn; lia ].
  - apply (fetchEffect_settled C isConfig h (setConfig c st) Hc). exact Hst.
Qed.

(** X8: whatever configurations arrive, the state the component comes to
    rest in is not loading, shows a series that ascends under the collator
    with no category twice, and has signalled [setRendered] at most once
    per arrival. *)
Theorem reached_state_settled (C : Collator) (isConfig : bool) (h : Host)
  (arrivals : list IChartConfig) :
  consistent C ->
  loading (afterConfigs isConfig h arrivals) = false
  /\ NoDup (List.map ILinePoint.behavior (data (afterConfigs isConfig h arrivals)))
  /\ StronglySorted pointLe (data (afterConfigs isConfig h arrivals))
  /\ rendered (afterConfigs isConfig h arrivals) <= List.length arrivals.
Proof.
  intros Hc. unfold afterConfigs, mount.
  assert (Hmount : settled (fst (fetchEffect isConfig h initialState))
                   /\ rendered (fst (fetchEffect isConfig h initialState)) <= 0).
  { rewrite (fetchEffect_closed isConfig h initialState eq_refl).
    repeat split; cbn; try constructor. }
  assert (Hfold : forall n st0,
             settled st0 /\ rendered st0 <= n ->
             settled (fold_left (configArrives isConfig h) arrivals st0)
             /\ rendered (fold_left (configArrives isConfig h) arrivals st0)
                <= n + List.length arrivals).
  { induction arrivals as [ | c rest IH ]; intros n st0 [Hst Hn];
      cbn [fold_left List.length].
    - split; [ exact Hst | lia ].
    - destruct (configArrives_settled C isConfig h st0 c Hc Hst) as [Hst' Hn'].
      destruct (IH (S n) (configArrives isConfig h st0 c)) as [Hs Hr].
      + split; [ exact Hst' | lia ].
      + split; [ exact Hs | lia ]. }
  destruct (Hfold 0 _ Hmount) as [[Hl [Hnd Hs]] Hr].
  repeat split; assumption.
Qed.

Lemma reached_state_settled_witness :
  loading (@afterConfigs ordinalCollator false (tableHost scenarioRows)
             [partialConfig; fullConfig; defaultConfig]) = false
  /\ NoDup (List.map ILinePoint.behavior
              (data (@afterConfigs ordinalCollator false (tableHost scenarioRows)
                       [partialConfig; fullConfig; defaultConfig])))
  /\ StronglySorted (@pointLe ordinalCollator)
       (data (@afterConfigs ordinalCollator false (tableHost scenarioRows)
                [partialConfig; fullConfig; defaultConfig]))
  /\ rendered (@afterConfigs ordinalCollator false (tableHost scenarioRows)
                 [partialConfig; fullConfig; defaultConfig])
     <= List.length [partialConfig; fullConfig; defaultConfig].
Proof.
  apply (reached_state_settled ordinalCollator false (tableHost scenarioRows)
           [partialConfig; fullConfig; defaultConfig]).
  exact ordinalCollator_consistent.
Defined.

(** ** The view *)

(** X9: once the effect has run to its end in display mode from a state
    that was not loading, the spinner is off; from a state without a series
    the chart is shown exactly when the gate is open and the run returns a
    series that is not empty, and the notice of line 286 is shown for an
    incomplete configuration, a run that throws and a run without
    categories alike. *)
Theorem view_after_effect `{Collator} (h : Host) (st : State) :
  loading st = false ->
  render false (fst (fetchEffect false h st)) <> Spinner
  /\ (data st = [] ->
      render false (fst (fetchEffect false h st))
      = if gate (config st) then
          match fst (aggregation h (asString (behaviorFieldId (config st)))
                       (asString (aiFieldId (config st)))
                       (asString (reviewerFieldId (config st))) []) with
          | Ok (p :: rest) => LineChart (p :: rest)
          | _ => NoDataNotice
          end
        else NoDataNotice).
Proof.
  intros Hloading.
  destruct (gate (config st)) eqn:Hgate.
  - rewrite fetchEffect_open by exact Hgate. cbn zeta. cbn [fst].
    unfold render, signalRendered.
    destruct (fst (aggregation h _ _ _ [])) as [[ | p rest] | e];
      destruct (hasSetRendered h); cbn [setLoading setData loading data config rendered];
      (split;
       [ try discriminate; destruct (data st); cbn; discriminate
       | intros Hdata; try rewrite Hdata; reflexivity ]).
  - rewrite (fetchEffect_closed false h st Hgate). cbn [fst].
    unfold render. rewrite Hloading.
    split; [ destruct (data st); cbn; discriminate | ].
    intros Hdata. rewrite Hdata. reflexivity.
Qed.

Lemma view_after_effect_witness :
  render false (fst (@fetchEffect ordinalCollator false
                       (rejecting "ai" "rec2" (tableHost scenarioRows))
                       (mkState fullConfig [] false 0))) <> Spinner
  /\ (data (mkState fullConfig [] false 0) = [] ->
      render false (fst (@fetchEffect ordinalCollator false
                           (rejecting "ai" "rec2" (tableHost scenarioRows))
                           (mkState fullConfig [] false 0)))
      = if gate (config (mkState fullConfig [] false 0)) then
          match fst (@aggregation ordinalCollator
                       (rejecting "ai" "rec2" (tableHost scenarioRows))
                       (asString (behaviorFieldId (config (mkState fullConfig [] false 0))))
                       (asString (aiFieldId (config (mkState fullConfig [] false 0))))
                       (asString (reviewerFieldId (config (mkState fullConfig [] false 0))))
                       []) with
          | Ok (p :: rest) => LineChart (p :: rest)
          | _ => NoDataNotice
          end
        else NoDataNotice).
Proof.
  apply (@view_after_effect ordinalCollator
           (rejecting "ai" "rec2" (tableHost scenarioRows))
           (mkState fullConfig [] false 0)).
  reflexivity.
Defined.

(** ** The configuration panel *)

Lemma configArrives_panel `{Collator} (h : Host) (st : State) (c : IChartConfig) :
  configArrives true h st c = setConfig c st.
Proof.
  unfold configArrives. destruct (sameDeps (config st) c); reflexivity.
Qed.

(** X10: in configuration mode no sequence of selections and arriving
    configurations fetches anything: the series, the loading flag and the
    rendered signal stay as they were, and the configuration is what the
    events make of it.  The three selects write their own field only, so
    they commute, and once all three hold a non-empty id the gate is
    open. *)
Theorem panel_never_fetches `{Collator} (h : Host) (events : list PanelEvent)
  (st : State) :
  fold_left (panelStep true h) events st
  = mkState (fold_left panelConfig events (config st)) (data st) (loading st) (rendered st)
  /\ (forall st', fetchEffect true h st' = (st', []))
  /\ (forall b a r c,
        selectAi a (selectBehavior b c) = selectBehavior b (selectAi a c)
        /\ selectReviewer r (selectBehavior b c) = selectBehavior b (selectReviewer r c)
        /\ selectReviewer r (selectAi a c) = selectAi a (selectReviewer r c)
        /\ gate (selectReviewer r (selectAi a (selectBehavior b c)))
           = negb (unset b || unset a || unset r)).
Proof.
  split; [ | split ].
  - revert st. induction events as [ | ev rest IH ]; intros st; cbn [fold_left].
    + destruct st; reflexivity.
    + rewrite IH. unfold panelStep. rewrite configArrives_panel. reflexivity.
  - intros st'. reflexivity.
  - intros b a r c. repeat split.
Qed.

(** ** Saving and loading the configuration *)

(** X11: what the save button hands to [saveConfig] holds the
    configuration under [customConfig] and has no [config] property, so
    neither the [getConfig] handler nor the [onConfigChange] listener calls
    [setConfig] when that object comes back; both read [config], and both
    ignore an answer that is no object. *)
Theorem saved_config_not_read_back (config : JsValue) :
  loadedConfig (savedConfig config) = None
  /\ changedConfig (JObject [("data", savedConfig config)]) = None
  /\ (truthy config = true ->
      loadedConfig (JObject [("config", config)]) = Some config
      /\ changedConfig (JObject [("data", JObject [("config", config)])]) = Some config)
  /\ (forall res, (forall props, res <> JObject props) ->
                  loadedConfig res = None /\ changedConfig res = None).
Proof.
  split; [ reflexivity | ]. split; [ reflexivity | ]. split.
  - intros Htruthy. unfold loadedConfig, changedConfig. cbn. rewrite Htruthy.
    split; reflexivity.
  - intros res Hres.
    destruct res; try (split; reflexivity).
    exfalso. exact (Hres props eq_refl).
Qed.

(** ** Cells of the host *)

(** X12: when the verdict cells of a record are lists of tagged entries
    (the options of a select, users), only the first entry of each counts:
    with a category that [map] can own, the loop body moves [aiNormal] or
    [aiViolation] of the category by one exactly when the text (else the
    name) of the first AI entry is the respective verdict, and the reviewer
    counters likewise from the first reviewer entry, whatever the other
    entries are. *)
Theorem first_entry_decides (h : Host) (bf af rf id : string) (m : TallyMap)
  (calls : list Call) (behaviorRaw behavior : JsValue) (key : string)
  (aiProps reviewerProps : list (string * JsValue)) (aiRest reviewerRest : list JsValue)
  (ai reviewer : string) :
  getValue h bf id = Ok behaviorRaw ->
  getValue h af id = Ok (JArray (JObject aiProps :: aiRest)) ->
  getValue h rf id = Ok (JArray (JObject reviewerProps :: reviewerRest)) ->
  normalizeText behaviorRaw = Ok behavior ->
  truthy behavior = true ->
  ToString behavior = Ok key ->
  inherited key = false ->
  (getOwn "text" aiProps = Some (JString ai)
   \/ (getOwn "text" aiProps = None /\ getOwn "name" aiProps = Some (JString ai))) ->
  (getOwn "text" reviewerProps = Some (JString reviewer)
   \/ (getOwn "text" reviewerProps = None
       /\ getOwn "name" reviewerProps = Some (JString reviewer))) ->
  exists m' t',
    fst (processRecord h bf af rf id m calls) = Ok m'
    /\ ownTally key m' = Some t'
    /\ aiNormal t'
       = aiNormal (match ownTally key m with Some t => t | None => zeroTally end)
         + (if String.eqb ai NORMAL then 1 else 0)
    /\ aiViolation t'
       = aiViolation (match ownTally key m with Some t => t | None => zeroTally end)
         + (if String.eqb ai VIOLATION then 1 else 0)
    /\ reviewerNormal t'
       = reviewerNormal (match ownTally key m with Some t => t | None => zeroTally end)
         + (if String.eqb reviewer NORMAL then 1 else 0)
    /\ reviewerViolation t'
       = reviewerViolation (match ownTally key m with Some t => t | None => zeroTally end)
         + (if String.eqb reviewer VIOLATION then 1 else 0).
Proof.
  intros Hb Ha Hr Hnb Htruthy Hkey Hinh Hai Hreviewer.
  assert (Hna : normalizeText (JArray (JObject aiProps :: aiRest)) = Ok (JString ai)).
  { change (normalizeText (JArray (JObject aiProps :: aiRest)))
      with (normalizeText (JObject aiProps)).
    rewrite normalizeText_object.
    destruct Hai as [Ht | [Ht Hn]]; [ rewrite Ht | rewrite Ht, Hn ]; reflexivity. }
  assert (Hnr : normalizeText (JArray (JObject reviewerProps :: reviewerRest))
                = Ok (JString reviewer)).
  { change (normalizeText (JArray (JObject reviewerProps :: reviewerRest)))
      with (normalizeText (JObject reviewerProps)).
    rewrite normalizeText_object.
    destruct Hreviewer as [Ht | [Ht Hn]]; [ rewrite Ht | rewrite Ht, Hn ]; reflexivity. }
  destruct (verdict_rule behaviorRaw _ _ behavior (JString ai) (JString reviewer)
              key m Hnb Htruthy Hkey Hinh Hna Hnr) as [m' [Hrec [Hown _]]].
  exists m'. eexists.
  split; [ rewrite processRecord_outcome; unfold recordOutcome;
           rewrite Hb, Ha, Hr; cbn [bindO]; exact Hrec | ].
  split; [ exact Hown | ].
  unfold aiDelta, reviewerDelta, strictEq.
  destruct (ownTally key m) as [[n1 n2 n3 n4] | ];
    destruct (String.eqb_spec ai NORMAL) as [-> | _];
    destruct (String.eqb_spec reviewer NORMAL) as [-> | _];
    repeat match goal with
           | |- context [String.eqb NORMAL VIOLATION] =>
               change (String.eqb NORMAL VIOLATION) with false
           end;
    try destruct (String.eqb ai VIOLATION);
    try destruct (String.eqb reviewer VIOLATION);
    cbn; repeat split; lia.
Qed.

Lemma first_entry_decides_witness :
  exists m' t',
    fst (processRecord (tableHost optionRows) "behavior" "ai" "reviewer" "rec1"
           [("A", mkTally 1 0 1 0)] []) = Ok m'
    /\ ownTally "A" m' = Some t'
    /\ aiNormal t'
       = aiNormal (match ownTally "A" [("A", mkTally 1 0 1 0)] with
                   | Some t => t
                   | None => zeroTally
                   end)
         + (if String.eqb VIOLATION NORMAL then 1 else 0)
    /\ aiViolation t'
       = aiViolation (match ownTally "A" [("A", mkTally 1 0 1 0)] with
                      | Some t => t
                      | None => zeroTally
                      end)
         + (if String.eqb VIOLATION VIOLATION then 1 else 0)
    /\ reviewerNormal t'
       = reviewerNormal (match ownTally "A" [("A", mkTally 1 0 1 0)] with
                         | Some t => t
                         | None => zeroTally
                         end)
         + (if String.eqb NORMAL NORMAL then 1 else 0)
    /\ reviewerViolation t'
       = reviewerViolation (match ownTally "A" [("A", mkTally 1 0 1 0)] with
                            | Some t => t
                            | None => zeroTally
                            end)
         + (if String.eqb NORMAL VIOLATION then 1 else 0).
Proof.
  apply (first_entry_decides (tableHost optionRows) "behavior" "ai" "reviewer" "rec1"
           [("A", mkTally 1 0 1 0)] [] (JString "A") (JString "A") "A"
           [("id", JString "opt2"); ("text", JString VIOLATION)]
           [("id", JString "u1"); ("name", JString NORMAL)]
           [JObject [("id", JString "opt1"); ("text", JString NORMAL)]]
           [JObject [("id", JString "u2"); ("name", JString VIOLATION)]]
           VIOLATION NORMAL);
    try reflexivity.
  - left. reflexivity.
  - right. split; reflexivity.
Defined.

Lemma listCredits_In (h : Host) (bf af rf : string) (ids : list string) :
  forall cs,
    listCredits h bf af rf ids = Ok cs ->
    (forall id, In id ids -> exists c, recordCredit h bf af rf id = Ok c /\ In c cs)
    /\ (forall c, In c cs -> exists id, In id ids /\ recordCredit h bf af rf id = Ok c).
Proof.
  induction ids as [ | id0 rest IH ]; intros cs Hcs; cbn [listCredits] in Hcs.
  - injection Hcs as <-. split; intros x [].
  - destruct (recordCredit h bf af rf id0) as [c0 | e] eqn:Hc0; cbn [bindO] in Hcs;
      [ | discriminate ].
    destruct (listCredits h bf af rf rest) as [cs0 | e]; cbn [bindO] in Hcs;
      [ | discriminate ].
    injection Hcs as <-. destruct (IH cs0 eq_refl) as [Hfwd Hbwd]. split.
    + intros id [<- | Hin].
      * exists c0. split; [ exact Hc0 | left; reflexivity ].
      * destruct (Hfwd id Hin) as [c [Hc Hcin]].
        exists c. split; [ exact Hc | right; exact Hcin ].
    + intros c [<- | Hin].
      * exists id0. split; [ left; reflexivity | exact Hc0 ].
      * destruct (Hbwd c Hin) as [id [Hid Hc]].
        exists id. split; [ right; exact Hid | exact Hc ].
Qed.

(** The categories of the series a list of credits gives, whatever the
    collator. *)
Lemma series_keys_observed `{Collator} (cs : list Credit) (k : string) :
  In k (List.map ILinePoint.behavior (seriesOf (creditAll cs []))) <-> observed k cs = true.
Proof.
  pose proof (ownTally_observed k cs) as Hown. split.
  - intros Hin. apply (Permutation_in _ (seriesOf_keys _)) in Hin.
    destruct (observed k cs); [ reflexivity | ].
    apply ownTally_None in Hown. contradiction.
  - intros Hobs. rewrite Hobs in Hown.
    apply (Permutation_in _ (Permutation_sym (seriesOf_keys _))).
    destruct (in_dec String.string_dec k (List.map fst (creditAll cs [])))
      as [Hin | Hnotin]; [ exact Hin | ].
    apply ownTally_None in Hnotin. congruence.
Qed.

Lemma credited_In (k : string) (d : Tally) (cs : list Credit) :
  In (Some (k, d)) cs -> credited k cs = true.
Proof.
  intros Hin. unfold credited. apply existsb_exists.
  exists (Some (k, d)). split; [ exact Hin | apply String.eqb_refl ].
Qed.

(** X13: in a run that returns a series, a record whose category cell is
    a bare boolean or number is never dropped: the cell is turned into text
    before the emptiness test, so [false] and [0] are the categories
    "false" and "0" of the series.  When every category cell is a tag
    whose [text] holds [false] or [0], all records are dropped and the
    series is empty. *)
Theorem primitive_category_kept `{Collator} (h : Host) (bf af rf : string)
  (ids : list string) (series : list ILinePoint) :
  getRecordIdList h = Ok ids ->
  fst (aggregation h bf af rf []) = Ok series ->
  (forall id b,
      In id ids -> getValue h bf id = Ok (JBool b) ->
      In (if b then "true" else "false") (List.map ILinePoint.behavior series))
  /\ (forall id rendering,
        In id ids -> getValue h bf id = Ok (JNumber rendering) ->
        rendering <> "" -> inherited rendering = false ->
        In rendering (List.map ILinePoint.behavior series))
  /\ ((forall id,
          In id ids ->
          exists props,
            getValue h bf id = Ok (JObject props)
            /\ (getOwn "text" props = Some (JBool false)
                \/ getOwn "text" props = Some (JNumber "0"))) ->
      series = []).
Proof.
  intros Hids Hrun.
  destruct (aggregation_succeeds h bf af rf [] series Hrun) as [ids' [cs [Hids' [Hcs ->]]]].
  assert (ids' = ids) by congruence. subst ids'.
  destruct (listCredits_In h bf af rf ids cs Hcs) as [Hfwd Hbwd].
  assert (Hkept : forall id raw key,
             In id ids -> getValue h bf id = Ok raw ->
             normalizeText raw = Ok (JString key) -> key <> "" -> inherited key = false ->
             In key (List.map ILinePoint.behavior (seriesOf (creditAll cs [])))).
  { intros id raw key Hin Hraw Hnorm Hne Hinh.
    destruct (Hfwd id Hin) as [c [Hc Hcin]].
    unfold recordCredit in Hc. rewrite Hraw in Hc. cbn [bindO] in Hc.
    destruct (getValue h af id) as [aiRaw | e]; cbn [bindO] in Hc; [ | discriminate ].
    destruct (getValue h rf id) as [reviewerRaw | e]; cbn [bindO] in Hc; [ | discriminate ].
    unfold contribution in Hc. rewrite Hnorm in Hc. cbn [bindO truthy ToString] in Hc.
    destruct (String.eqb_spec key "") as [He | _]; [ contradiction | ].
    cbn [negb bindO] in Hc.
    destruct (normalizeText aiRaw); cbn [bindO] in Hc; [ | discriminate ].
    destruct (normalizeText reviewerRaw); cbn [bindO] in Hc; [ | discriminate ].
    injection Hc as <-.
    apply series_keys_observed. unfold observed.
    rewrite (credited_In _ _ _ Hcin), Hinh. reflexivity. }
  split; [ | split ].
  - intros id b Hin Hraw.
    apply (Hkept id (JBool b)); try assumption; destruct b;
      try reflexivity; discriminate.
  - intros id rendering Hin Hraw Hne Hinh.
    apply (Hkept id (JNumber rendering)); try assumption. reflexivity.
  - intros Htags.
    destruct (seriesOf (creditAll cs [])) as [ | p rest ] eqn:Hs; [ reflexivity | ].
    exfalso.
    assert (Hin : In (ILinePoint.behavior p)
                     (List.map ILinePoint.behavior (seriesOf (creditAll cs []))))
      by (rewrite Hs; left; reflexivity).
    apply series_keys_observed in Hin. unfold observed in Hin.
    apply andb_true_iff in Hin. destruct Hin as [Hcredited _].
    unfold credited in Hcredited. apply existsb_exists in Hcredited.
    destruct Hcredited as [c [Hcin Hck]].
    destruct (Hbwd c Hcin) as [id [Hid Hc]].
    destruct (Htags id Hid) as [props [Hraw Htext]].
    unfold recordCredit in Hc. rewrite Hraw in Hc. cbn [bindO] in Hc.
    destruct (getValue h af id) as [aiRaw | e]; cbn [bindO] in Hc; [ | discriminate ].
    destruct (getValue h rf id) as [reviewerRaw | e]; cbn [bindO] in Hc; [ | discriminate ].
    unfold contribution in Hc. rewrite normalizeText_object in Hc.
    destruct Htext as [Ht | Ht]; rewrite Ht in Hc; cbn in Hc;
      injection Hc as <-; discriminate Hck.
Qed.

Lemma primitive_category_kept_witness :
  (forall id b,
      In id ["rec1"; "rec2"] ->
      getValue (tableHost primitiveCategoryRows) "behavior" id = Ok (JBool b) ->
      In (if b then "true" else "false")
         (List.map ILinePoint.behavior
            [ILinePoint.mk "0" 1 0 0 1; ILinePoint.mk "false" 1 0 0 1]))
  /\ (forall id rendering,
        In id ["rec1"; "rec2"] ->
        getValue (tableHost primitiveCategoryRows) "behavior" id = Ok (JNumber rendering) ->
        rendering <> "" -> inherited rendering = false ->
        In rendering
           (List.map ILinePoint.behavior
              [ILinePoint.mk "0" 1 0 0 1; ILinePoint.mk "false" 1 0 0 1]))
  /\ ((forall id,
          In id ["rec1"; "rec2"] ->
          exists props,
            getValue (tableHost primitiveCategoryRows) "behavior" id = Ok (JObject props)
            /\ (getOwn "text" props = Some (JBool false)
                \/ getOwn "text" props = Some (JNumber "0"))) ->
      [ILinePoint.mk "0" 1 0 0 1; ILinePoint.mk "false" 1 0 0 1] = []).
Proof.
  apply (@primitive_category_kept ordinalCollator (tableHost primitiveCategoryRows)
           "behavior" "ai" "reviewer" ["rec1"; "rec2"]
           [ILinePoint.mk "0" 1 0 0 1; ILinePoint.mk "false" 1 0 0 1]);
    reflexivity.
Defined.
